(** * Zone editor: the fish-pool selector of the admin panel

    A shallow embedding of the zone manager script (the file whose
    handlers are [setupFishSelection], [updateRarityCheckboxState],
    [_addFishToSelected_internal], [addFishToSelected],
    [removeFishFromSelected], [clearAllSelected], [updateSelectedStats],
    [initializeSelectedFish] and [hookFormHandlers]).

    Conventions of the embedding:
    - fish identifiers, rarities and values are integers ([Z]); a
      [data-*] attribute holds the decimal rendering of its number, and
      [parseInt] of that attribute gives the number back;
    - a JavaScript [Set] is a duplicate-free list in insertion order,
      which is the order [Array.from] and [forEach] observe;
    - the [WeakMap] from containers to sets is a finite map keyed by the
      container's identity;
    - a DOM list is the list of its [.fish-item] children in document
      order; a text node showing a number is that number. *)

From Stdlib Require Import ZArith List Bool String Ascii Lia.
From Stdlib Require Import DecimalString DecimalZ DecimalPos DecimalFacts Floats.
From stdpp Require Import base gmap list strings.

Set Warnings "-inexact-float".
Open Scope Z_scope.

(** ** Strings *)

(** [String(n)] and template interpolation of an integer. *)
Definition string_of_Z (z : Z) : string :=
  NilZero.string_of_int (Z.to_int z).

(** Reading a decimal rendering back, as a consumer of the hidden input
    would. *)
Definition Z_of_string (s : string) : option Z :=
  Z.of_int <$> NilZero.int_of_string s.

(** [Array.prototype.join]. *)
Fixpoint join (sep : string) (l : list string) : string :=
  match l with
  | [] => ""
  | x :: rest =>
      match rest with
      | [] => x
      | _ :: _ => x +:+ sep +:+ join sep rest
      end
  end.

(** [String.prototype.split] on a one-character separator. *)
Fixpoint split_on (c : ascii) (s : string) : list string :=
  match s with
  | EmptyString => [EmptyString]
  | String a s' =>
      if Ascii.eqb a c then EmptyString :: split_on c s'
      else match split_on c s' with
           | [] => [String a EmptyString]
           | w :: ws => String a w :: ws
           end
  end.

Definition comma : ascii := ","%char.

(** The ids a comma-joined serialization stands for; the empty string is
    the serialization of no id at all. *)
Definition parse_ids (s : string) : option (list Z) :=
  match s with
  | EmptyString => Some []
  | _ => mapM Z_of_string (split_on comma s)
  end.

(** [toLowerCase], on the ASCII letters. *)
Definition lower_ascii (c : ascii) : ascii :=
  let n := nat_of_ascii c in
  if (65 <=? n)%nat && (n <=? 90)%nat then ascii_of_nat (n + 32) else c.

Fixpoint toLowerCase (s : string) : string :=
  match s with
  | EmptyString => EmptyString
  | String c s' => String (lower_ascii c) (toLowerCase s')
  end.

(** [hay.includes(needle)]. *)
Fixpoint includes (hay needle : string) : bool :=
  String.prefix needle hay ||
  match hay with
  | EmptyString => false
  | String _ hay' => includes hay' needle
  end.

(** JavaScript truthiness of a string: only the empty string is falsy. *)
Definition truthy (s : string) : bool :=
  match s with EmptyString => false | _ => true end.

(** The characters a decimal rendering is made of. *)
Definition decimal_char (c : ascii) : bool :=
  existsb (Ascii.eqb c)
    ["-"; "0"; "1"; "2"; "3"; "4"; "5"; "6"; "7"; "8"; "9"]%char.

Fixpoint all_chars (p : ascii → bool) (s : string) : bool :=
  match s with
  | EmptyString => true
  | String c s' => p c && all_chars p s'
  end.

(** ** The [Set] of selected ids *)

Definition IdSet := list Z.

Definition has (s : IdSet) (x : Z) : bool := bool_decide (x ∈ s).

Definition set_add (x : Z) (s : IdSet) : IdSet :=
  if has s x then s else s ++ [x].

Definition set_delete (x : Z) (s : IdSet) : IdSet :=
  List.filter (λ y, negb (y =? x)) s.

(** ** The DOM of one dialog container *)

(** A [.fish-item] element: its four [data-*] attributes, its inline
    [display] and the state of the checkbox inside it. *)
Record FishItem := mkFishItem {
  fishId : Z;
  rarity : Z;
  value : Z;
  name : string;
  display_none : bool;
  checked : bool
}.

(** A [.rarity-select-all] checkbox, with id [rarity-<n>]. *)
Record RarityHeader := mkRarityHeader {
  header_rarity : Z;
  header_checked : bool;
  header_indeterminate : bool
}.

Record Dom := mkDom {
  totalFishList : list FishItem;
  rarityHeaders : list RarityHeader;
  selectedFishList : list FishItem;
  fishSearch : string;
  rarityFilter : string;
  totalFishCount : nat;
  selectedCount : nat;
  totalValue : Z;
  emptySelectedMessage_hidden : bool;
  specific_fish_ids_input : string
}.

(** The state one dialog owns: its entry of the weak map and its DOM. *)
Record Modal := mkModal {
  selectedSet : IdSet;
  dom : Dom
}.

(** Field updates. *)
Definition set_display (b : bool) (it : FishItem) : FishItem :=
  mkFishItem (fishId it) (rarity it) (value it) (name it) b (checked it).

Definition set_checked (b : bool) (it : FishItem) : FishItem :=
  mkFishItem (fishId it) (rarity it) (value it) (name it) (display_none it) b.

Definition with_totalFishList (l : list FishItem) (d : Dom) : Dom :=
  mkDom l (rarityHeaders d) (selectedFishList d) (fishSearch d)
    (rarityFilter d) (totalFishCount d) (selectedCount d) (totalValue d)
    (emptySelectedMessage_hidden d) (specific_fish_ids_input d).

Definition with_rarityHeaders (l : list RarityHeader) (d : Dom) : Dom :=
  mkDom (totalFishList d) l (selectedFishList d) (fishSearch d)
    (rarityFilter d) (totalFishCount d) (selectedCount d) (totalValue d)
    (emptySelectedMessage_hidden d) (specific_fish_ids_input d).

Definition with_selectedFishList (l : list FishItem) (d : Dom) : Dom :=
  mkDom (totalFishList d) (rarityHeaders d) l (fishSearch d)
    (rarityFilter d) (totalFishCount d) (selectedCount d) (totalValue d)
    (emptySelectedMessage_hidden d) (specific_fish_ids_input d).

Definition with_fishSearch (s : string) (d : Dom) : Dom :=
  mkDom (totalFishList d) (rarityHeaders d) (selectedFishList d) s
    (rarityFilter d) (totalFishCount d) (selectedCount d) (totalValue d)
    (emptySelectedMessage_hidden d) (specific_fish_ids_input d).

Definition with_rarityFilter (s : string) (d : Dom) : Dom :=
  mkDom (totalFishList d) (rarityHeaders d) (selectedFishList d)
    (fishSearch d) s (totalFishCount d) (selectedCount d) (totalValue d)
    (emptySelectedMessage_hidden d) (specific_fish_ids_input d).

Definition with_totalFishCount (n : nat) (d : Dom) : Dom :=
  mkDom (totalFishList d) (rarityHeaders d) (selectedFishList d)
    (fishSearch d) (rarityFilter d) n (selectedCount d) (totalValue d)
    (emptySelectedMessage_hidden d) (specific_fish_ids_input d).

Definition with_dom (d : Dom) (m : Modal) : Modal :=
  mkModal (selectedSet m) d.

(** Selector helpers: [querySelector] takes the first match in document
    order, [Element.remove] detaches that one node. *)
Definition has_id (id : Z) (it : FishItem) : bool := fishId it =? id.

Definition find_item (id : Z) (l : list FishItem) : option FishItem :=
  List.find (has_id id) l.

Fixpoint remove_first {A : Type} (p : A → bool) (l : list A) : list A :=
  match l with
  | [] => []
  | x :: l' => if p x then l' else x :: remove_first p l'
  end.

Fixpoint update_first {A : Type} (p : A → bool) (f : A → A) (l : list A)
  : list A :=
  match l with
  | [] => []
  | x :: l' => if p x then f x :: l' else x :: update_first p f l'
  end.

Definition is_shown (it : FishItem) : bool := negb (display_none it).

(** The total of the values of some rows, over the integers. The page
    adds doubles, each the [parseInt] of a [data-value] text; that sum
    is followed in [Totals] further down. *)
Definition sum_values (l : list FishItem) : Z :=
  fold_left (λ acc it, acc + value it) l 0.

(** ** The filter ([filterFishOptions], a closure of [setupFishSelection]) *)

Definition isVisible (searchTerm rar : string) (s : IdSet) (item : FishItem)
  : bool :=
  (includes (toLowerCase (name item)) searchTerm || negb (truthy searchTerm))
  && (String.eqb (string_of_Z (rarity item)) rar || negb (truthy rar))
  && negb (has s (fishId item)).

Definition filterFishOptions (m : Modal) : Modal :=
  let d := dom m in
  let searchTerm := toLowerCase (fishSearch d) in
  let rar := rarityFilter d in
  let vis := isVisible searchTerm rar (selectedSet m) in
  let items := map (λ item, set_display (negb (vis item)) item)
                   (totalFishList d) in
  let visibleCount := length (List.filter vis (totalFishList d)) in
  with_dom (with_totalFishCount visibleCount (with_totalFishList items d)) m.

(** ** The tri-state header ([updateRarityCheckboxState]) *)

Definition of_rarity (r : Z) (it : FishItem) : bool := rarity it =? r.

Definition is_header (r : Z) (h : RarityHeader) : bool := header_rarity h =? r.

(** The two node lists the function queries. *)
Definition visible_items (r : Z) (d : Dom) : list FishItem :=
  List.filter (λ it, of_rarity r it && is_shown it) (totalFishList d).

Definition checked_items (r : Z) (d : Dom) : list FishItem :=
  List.filter checked (visible_items r d).

Definition updateRarityCheckboxState (r : Z) (d : Dom) : Dom :=
  let items := length (visible_items r d) in
  let checkedItems := length (checked_items r d) in
  let state :=
    if (0 <? items)%nat
    then ((items =? checkedItems)%nat,
          (0 <? checkedItems)%nat && (checkedItems <? items)%nat)
    else (false, false) in
  with_rarityHeaders
    (update_first (is_header r)
       (λ h, mkRarityHeader (header_rarity h) (fst state) (snd state))
       (rarityHeaders d))
    d.

(** ** Selection operations *)

(** The node [_addFishToSelected_internal] builds from the candidate's
    dataset: shown, with an unchecked box. *)
Definition selected_node (totalItem : FishItem) : FishItem :=
  mkFishItem (fishId totalItem) (rarity totalItem) (value totalItem)
    (name totalItem) false false.

Definition _addFishToSelected_internal (id : Z) (m : Modal) : Modal :=
  if has (selectedSet m) id then m
  else
    let s := set_add id (selectedSet m) in
    match find_item id (totalFishList (dom m)) with
    | None => mkModal s (dom m)
    | Some totalItem =>
        mkModal s
          (with_selectedFishList
             (selectedFishList (dom m) ++ [selected_node totalItem]) (dom m))
    end.

Definition updateSelectedStats (m : Modal) : Modal :=
  let d := dom m in
  let count := length (selectedSet m) in
  let total := sum_values (selectedFishList d) in
  let visibleCount := length (List.filter is_shown (totalFishList d)) in
  mkModal (selectedSet m)
    (mkDom (totalFishList d) (rarityHeaders d)
       (map (set_display false) (selectedFishList d))
       (fishSearch d) (rarityFilter d) visibleCount count total
       (0 <? count)%nat
       (join "," (map string_of_Z (selectedSet m)))).

Definition addFishToSelected (id : Z) (m : Modal) : Modal :=
  filterFishOptions (updateSelectedStats (_addFishToSelected_internal id m)).

Definition removeFishFromSelected (id : Z) (m : Modal) : Modal :=
  if negb (has (selectedSet m) id) then m
  else
    let d := dom m in
    filterFishOptions
      (updateSelectedStats
         (mkModal (set_delete id (selectedSet m))
            (with_selectedFishList
               (remove_first (has_id id) (selectedFishList d)) d))).

Definition clearAllSelected (m : Modal) : Modal :=
  let ids := selectedSet m in
  fold_left (λ acc id, removeFishFromSelected id acc) ids m.

(** The first half of [initializeSelectedFish], on the DOM: the selected
    list is emptied down to its placeholder, every candidate is shown and
    unchecked, every header box is cleared. *)
Definition reset_lists (d : Dom) : Dom :=
  mkDom (map (λ it, set_checked false (set_display false it))
           (totalFishList d))
    (map (λ h, mkRarityHeader (header_rarity h) false false)
       (rarityHeaders d))
    [] (fishSearch d) (rarityFilter d) (totalFishCount d)
    (selectedCount d) (totalValue d) false (specific_fish_ids_input d).

Definition initializeSelectedFish (ids : list Z) (m : Modal) : Modal :=
  let m1 := fold_left (λ acc id, _addFishToSelected_internal id acc) ids
              (mkModal [] (reset_lists (dom m))) in
  filterFishOptions (updateSelectedStats m1).

(** ** The handlers [setupFishSelection] installs *)

(** A click on the checkbox of a row: the listeners stop its propagation,
    so only the box changes. *)
Definition toggle_at (i : nat) (l : list FishItem) : list FishItem :=
  match l !! i with
  | Some it => <[i := set_checked (negb (checked it)) it]> l
  | None => l
  end.

(** [toggleFishSelection] for a click on a row, outside its checkbox. *)
Definition toggleFishSelection_total (i : nat) (m : Modal) : Modal :=
  match totalFishList (dom m) !! i with
  | Some item =>
      let d := with_totalFishList (toggle_at i (totalFishList (dom m)))
                 (dom m) in
      with_dom (updateRarityCheckboxState (rarity item) d) m
  | None => m
  end.

Definition toggleFishSelection_selected (i : nat) (m : Modal) : Modal :=
  match selectedFishList (dom m) !! i with
  | Some item =>
      let d := with_selectedFishList (toggle_at i (selectedFishList (dom m)))
                 (dom m) in
      with_dom (updateRarityCheckboxState (rarity item) d) m
  | None => m
  end.

(** [handleFishDblClick] and the [dblclick] listener of the selected
    list. *)
Definition handleFishDblClick (i : nat) (m : Modal) : Modal :=
  match totalFishList (dom m) !! i with
  | Some item => addFishToSelected (fishId item) m
  | None => m
  end.

Definition selected_dblclick (i : nat) (m : Modal) : Modal :=
  match selectedFishList (dom m) !! i with
  | Some item => removeFishFromSelected (fishId item) m
  | None => m
  end.

(** The [change] listener of a [.rarity-select-all] box. The browser has
    already flipped the box and cleared its indeterminate flag. *)
Definition rarity_select_all_change (r : Z) (m : Modal) : Modal :=
  match List.find (is_header r) (rarityHeaders (dom m)) with
  | Some h =>
      let target_checked := negb (header_checked h) in
      let headers :=
        update_first (is_header r)
          (λ h, mkRarityHeader (header_rarity h) target_checked false)
          (rarityHeaders (dom m)) in
      let items :=
        map (λ item,
               if of_rarity r item && is_shown item
               then set_checked target_checked item else item)
            (totalFishList (dom m)) in
      with_dom
        (updateRarityCheckboxState r
           (with_totalFishList items (with_rarityHeaders headers (dom m))))
        m
  | None => m
  end.

(** The add and remove buttons walk a snapshot of the checked boxes. *)
Definition addSelectedBtn_click (m : Modal) : Modal :=
  let ids := map fishId (List.filter checked (totalFishList (dom m))) in
  fold_left (λ acc id, addFishToSelected id acc) ids m.

Definition removeSelectedBtn_click (m : Modal) : Modal :=
  let ids := map fishId (List.filter checked (selectedFishList (dom m))) in
  fold_left (λ acc id, removeFishFromSelected id acc) ids m.

(** A key typed in the search box and a rarity chosen both end in the
    filter: the box holds [s] when [keyup] reaches the listener. A text
    that gets into the box without a key reaches no listener; it is
    [PasteSearch] further down. *)
Definition fishSearch_keyup (s : string) (m : Modal) : Modal :=
  filterFishOptions (with_dom (with_fishSearch s (dom m)) m).

Definition rarityFilter_change (s : string) (m : Modal) : Modal :=
  filterFishOptions (with_dom (with_rarityFilter s (dom m)) m).

(** ** The dialog as a state machine *)

Inductive Event :=
  | AddFish (id : Z)
  | RemoveFish (id : Z)
  | ClearAll
  | Init (ids : list Z)
  | AddChecked
  | RemoveChecked
  | TypeSearch (s : string)
  | PickRarity (s : string)
  | ClickTotal (i : nat)
  | ClickSelected (i : nat)
  | BoxTotal (i : nat)
  | BoxSelected (i : nat)
  | DblClickTotal (i : nat)
  | DblClickSelected (i : nat)
  | SelectAll (r : Z).

Definition step (m : Modal) (e : Event) : Modal :=
  match e with
  | AddFish id => addFishToSelected id m
  | RemoveFish id => removeFishFromSelected id m
  | ClearAll => clearAllSelected m
  | Init ids => initializeSelectedFish ids m
  | AddChecked => addSelectedBtn_click m
  | RemoveChecked => removeSelectedBtn_click m
  | TypeSearch s => fishSearch_keyup s m
  | PickRarity s => rarityFilter_change s m
  | ClickTotal i => toggleFishSelection_total i m
  | ClickSelected i => toggleFishSelection_selected i m
  | BoxTotal i =>
      with_dom (with_totalFishList (toggle_at i (totalFishList (dom m)))
                  (dom m)) m
  | BoxSelected i =>
      with_dom (with_selectedFishList
                  (toggle_at i (selectedFishList (dom m))) (dom m)) m
  | DblClickTotal i => handleFishDblClick i m
  | DblClickSelected i => selected_dblclick i m
  | SelectAll r => rarity_select_all_change r m
  end.

Definition run (m : Modal) (es : list Event) : Modal := fold_left step es m.

(** ** Rendering the candidate list ([renderForm]) *)

(** A catalog entry of [allFishData]. *)
Record Fish := mkFish {
  fish_id : Z;
  fish_rarity : Z;
  base_value : Z;
  fish_name : string
}.

Definition candidate_node (f : Fish) : FishItem :=
  mkFishItem (fish_id f) (fish_rarity f) (base_value f) (fish_name f)
    false false.

Definition rarities : list Z := [1; 2; 3; 4; 5; 6; 7; 8; 9; 10].

Definition fishByRarity (allFishData : list Fish) (r : Z) : list Fish :=
  List.filter (λ f, fish_rarity f =? r) allFishData.

(** The dialog as [renderForm] leaves it, before any selection: one
    header per populated rarity from 1 to 10, followed by its fish. *)
Definition renderForm (allFishData : list Fish) : Dom :=
  let populated :=
    List.filter (λ r, (0 <? length (fishByRarity allFishData r))%nat)
      rarities in
  mkDom
    (flat_map (λ r, map candidate_node (fishByRarity allFishData r))
       populated)
    (map (λ r, mkRarityHeader r false false) populated)
    [] "" "" 0 0 0 false "".

(** [setupFishSelection] installs the handlers above and ends with the
    initial count of the filter. *)
Definition setupFishSelection (m : Modal) : Modal := filterFishOptions m.

(** A dialog shown for the first time: no entry in the weak map yet, so
    [getSelectedSet] starts from the empty set. *)
Definition fresh (allFishData : list Fish) : Modal :=
  setupFishSelection (mkModal [] (renderForm allFishData)).

(** ** The page: every dialog container and the weak map *)

Module Page.

(** The identity of a container element. *)
Definition Container := positive.

Record t := mk {
  containerToSelectedIds : gmap Container IdSet;
  domOf : Container → Dom
}.

(** [getSelectedSet]: the set of the container, created empty on first
    access. A [Set] object is never falsy, so only a missing entry
    takes the branch. *)
Definition getSelectedSet (container : Container) (p : t) : IdSet * t :=
  match containerToSelectedIds p !! container with
  | Some set => (set, p)
  | None => ([], mk (<[container := []]> (containerToSelectedIds p))
                    (domOf p))
  end.

(** The selection a container has, an absent entry meaning none yet. *)
Definition selected (container : Container) (p : t) : IdSet :=
  fst (getSelectedSet container p).

Definition modal (container : Container) (p : t) : Modal :=
  mkModal (selected container p) (domOf p container).

(** The handlers mutate the [Set] object and the container's subtree in
    place: the result is written back under the same key. *)
Definition store (container : Container) (m : Modal) (p : t) : t :=
  mk (<[container := selectedSet m]> (containerToSelectedIds p))
     (λ c, if decide (c = container) then dom m else domOf p c).

Definition on (container : Container) (f : Modal → Modal) (p : t) : t :=
  let '(set, p1) := getSelectedSet container p in
  store container (f (mkModal set (domOf p1 container))) p1.

Definition addFishToSelected (fishId : Z) (container : Container) : t → t :=
  on container (addFishToSelected fishId).

Definition removeFishFromSelected (fishId : Z) (container : Container)
  : t → t :=
  on container (removeFishFromSelected fishId).

Definition clearAllSelected (container : Container) : t → t :=
  on container clearAllSelected.

Definition initializeSelectedFish (ids : list Z) (container : Container)
  : t → t :=
  on container (initializeSelectedFish ids).

(** Any event of the dialog, delivered to one container. *)
Definition step (container : Container) (p : t) (e : Event) : t :=
  on container (λ m, step m e) p.

End Page.

(** ** Submitting the zone form ([hookFormHandlers], [showFormError]) *)

Record ZoneForm := mkZoneForm {
  input_id : string;
  input_name : string;
  input_description : string;
  input_daily_rare_fish_quota : string;
  input_fishing_cost : string;
  is_active : bool;
  limit_time : bool;
  input_available_from : string;
  input_available_until : string;
  rarity_1 : string;
  rarity_2 : string;
  rarity_3 : string;
  rarity_4 : string;
  rarity_5 : string;
  rarity_6plus : string;
  requires_pass : bool;
  input_required_item_id : string;
  (** [#form-error-alert]: [None] while it carries the class [d-none],
      otherwise the message and the list items it shows. *)
  form_error_alert : option (string * list string)
}.

(** The JSON body. The entries the handler copies from the form and
    never reads again (the six rarity texts, the switches as sent by the
    browser) are left out; the hidden [specific_fish_ids] entry is
    overwritten from the set. *)
Record Payload := mkPayload {
  payload_id : option Z;
  payload_name : string;
  payload_description : string;
  payload_daily_rare_fish_quota : Z;
  payload_fishing_cost : Z;
  payload_is_active : bool;
  payload_available_from : string;
  payload_available_until : string;
  payload_rarity_distribution : list float;
  payload_specific_fish_ids : list Z;
  payload_requires_pass : bool;
  payload_required_item_id : option Z
}.

Inductive Effect :=
  | Fetch (method url : string) (body : Payload)
  | Reload.

Record Response := mkResponse {
  ok : bool;
  message : string;
  errors : list string
}.

Definition showFormError (form : ZoneForm) (message : string)
    (errors : list string) : ZoneForm :=
  mkZoneForm (input_id form) (input_name form) (input_description form)
    (input_daily_rare_fish_quota form) (input_fishing_cost form)
    (is_active form) (limit_time form) (input_available_from form)
    (input_available_until form) (rarity_1 form) (rarity_2 form)
    (rarity_3 form) (rarity_4 form) (rarity_5 form) (rarity_6plus form)
    (requires_pass form) (input_required_item_id form)
    (Some (message, errors)).

(** What the user typed, the error alert left aside. *)
Definition form_inputs (form : ZoneForm) : ZoneForm :=
  mkZoneForm (input_id form) (input_name form) (input_description form)
    (input_daily_rare_fish_quota form) (input_fishing_cost form)
    (is_active form) (limit_time form) (input_available_from form)
    (input_available_until form) (rarity_1 form) (rarity_2 form)
    (rarity_3 form) (rarity_4 form) (rarity_5 form) (rarity_6plus form)
    (requires_pass form) (input_required_item_id form) None.

(** [x || d] on a number: [NaN] and both zeros are falsy. *)
Definition float_or (x d : float) : float :=
  if is_nan x || is_zero x then d else x.

(** [parseInt(x) || d], with [None] for [NaN]. *)
Definition int_or (x : option Z) (d : Z) : Z :=
  match x with
  | Some n => if n =? 0 then d else n
  | None => d
  end.

(** [Math.abs(sum - 1.0) > 1e-4]. *)
Definition off_by_more_than_1e_4 (sum : float) : bool :=
  (1e-4 <? abs (sum - 1.0))%float.

Definition rarity_error : string := "稀有度分布总和必须为 1".

Section Submit.

(** The two number parsers of the language, from the text of an input
    to a double and to an integer ([None] for [NaN]). *)
Variable parseFloat : string → float.
Variable parseInt : string → option Z.

(** The backend, as far as the handler sees it when every request is
    answered with a body that can be read. The other ways the two
    [await]s can end are in [submit_reply] further down. *)
Variable server : string → string → Payload → Response.

Definition rarityDistribution (form : ZoneForm) : list float :=
  map (λ s, float_or (parseFloat s) 0%float)
    [rarity_1 form; rarity_2 form; rarity_3 form; rarity_4 form;
     rarity_5 form]
  ++ [float_or (parseFloat (rarity_6plus form)) 0%float].

(** [rarityDistribution.reduce((a, b) => a + b, 0)]. *)
Definition rarity_sum (form : ZoneForm) : float :=
  fold_left (λ a b, (a + b)%float) (rarityDistribution form) 0%float.

(** The submit listener. [zoneId] is the id the dialog was opened for,
    absent or empty when a zone is created. The result is the form,
    the selection and the network effects in the order they happen. *)
Definition submit (zoneId : option string) (form : ZoneForm) (m : Modal)
  : ZoneForm * Modal * list Effect :=
  if off_by_more_than_1e_4 (rarity_sum form)
  then (showFormError form rarity_error [], m, [])
  else
    let payload :=
      mkPayload (parseInt (input_id form)) (input_name form)
        (input_description form)
        (int_or (parseInt (input_daily_rare_fish_quota form)) 0)
        (int_or (parseInt (input_fishing_cost form)) 10)
        (is_active form)
        (if limit_time form then input_available_from form else "")
        (if limit_time form then input_available_until form else "")
        (rarityDistribution form)
        (selectedSet m)
        (requires_pass form)
        (if requires_pass form
         then match parseInt (input_required_item_id form) with
              | Some n => if n =? 0 then None else Some n
              | None => None
              end
         else None) in
    let edit := match zoneId with Some z => truthy z | None => false end in
    let url := if edit then "/admin/api/zones/" +:+ default "" zoneId
               else "/admin/api/zones" in
    let method := if edit then "PUT" else "POST" in
    let response := server method url payload in
    if ok response
    then (form, m, [Fetch method url payload; Reload])
    else (showFormError form (message response) (errors response), m,
          [Fetch method url payload]).

End Submit.

(** ** What the properties speak about *)

(** The four [data-*] attributes of a node. *)
Definition ItemData : Type := Z * Z * Z * string.

Definition item_data (it : FishItem) : ItemData :=
  (fishId it, rarity it, value it, name it).

(** The dataset of the candidate an id selects, if the candidate list has
    one. *)
Definition data_of (total : list FishItem) (id : Z) : option ItemData :=
  option_map item_data (find_item id total).

Definition in_catalog (total : list FishItem) (id : Z) : bool :=
  match data_of total id with Some _ => true | None => false end.

(** The ids of the set that have a candidate, in the order of the set. *)
Definition known_ids (m : Modal) : list Z :=
  List.filter (in_catalog (totalFishList (dom m))) (selectedSet m).

(** Number of nodes the selected list renders for an id. *)
Definition rendered_count (id : Z) (m : Modal) : nat :=
  length (List.filter (has_id id) (selectedFishList (dom m))).

(** The synchronisation the handlers maintain between the set, the
    selected list and the derived displays. *)
Record Inv (m : Modal) : Prop := mkInv {
  inv_nodup : NoDup (selectedSet m);
  inv_ids : map fishId (selectedFishList (dom m)) = known_ids m;
  inv_data :
    Forall (λ it, data_of (totalFishList (dom m)) (fishId it)
                  = Some (item_data it))
           (selectedFishList (dom m));
  inv_shown :
    Forall (λ it, display_none it = false) (selectedFishList (dom m));
  inv_count : selectedCount (dom m) = length (selectedSet m);
  inv_total : totalValue (dom m) = sum_values (selectedFishList (dom m));
  inv_empty :
    emptySelectedMessage_hidden (dom m) = (0 <? length (selectedSet m))%nat;
  inv_hidden :
    specific_fish_ids_input (dom m)
    = join "," (map string_of_Z (selectedSet m))
}.

(** The part of a dialog the invariant depends on: events that leave it
    alone keep the invariant. *)
Definition view (m : Modal) :=
  (selectedSet m,
   map item_data (totalFishList (dom m)),
   map item_data (selectedFishList (dom m)),
   map display_none (selectedFishList (dom m)),
   (selectedCount (dom m), totalValue (dom m),
    emptySelectedMessage_hidden (dom m), specific_fish_ids_input (dom m))).

(** The five things the selection shows: the set, the rendered list, the
    count, the total value and the hidden serialization. *)
Definition selection (m : Modal) :=
  (selectedSet m, selectedFishList (dom m), selectedCount (dom m),
   totalValue (dom m), specific_fish_ids_input (dom m)).

(** One-to-one correspondence of the set with the rendered nodes, as the
    specification words it. *)
Definition one_to_one (m : Modal) : Prop :=
  (∀ id, id ∈ selectedSet m → rendered_count id m = 1%nat) ∧
  (∀ it, it ∈ selectedFishList (dom m) → fishId it ∈ selectedSet m).

(** The correspondence the handlers keep: one node for each id that has a
    candidate, none for the others, and no node without its id. *)
Definition one_to_one_known (m : Modal) : Prop :=
  NoDup (selectedSet m) ∧
  (∀ id, id ∈ selectedSet m →
     rendered_count id m
     = if in_catalog (totalFishList (dom m)) id then 1%nat else 0%nat) ∧
  (∀ it, it ∈ selectedFishList (dom m) → fishId it ∈ selectedSet m).

(** [Array.from(new Set(ids))]: first occurrences, in order. *)
Definition dedupe (ids : list Z) : IdSet :=
  fold_left (λ s id, set_add id s) ids [].

(** The part of the invariant that relates the set to the rendered
    nodes, before [updateSelectedStats] refreshes the displays. *)
Definition Core (m : Modal) : Prop :=
  NoDup (selectedSet m) ∧
  map fishId (selectedFishList (dom m)) = known_ids m ∧
  Forall (λ it, data_of (totalFishList (dom m)) (fishId it)
                = Some (item_data it))
         (selectedFishList (dom m)).

(** The header box of a rarity, if the candidate list has one. *)
Definition header_of (r : Z) (d : Dom) : option RarityHeader :=
  List.find (is_header r) (rarityHeaders d).

(** Some, but not all, visible items of the rarity are checked. *)
Definition some_not_all_checked (r : Z) (d : Dom) : Prop :=
  Exists (λ it, checked it = true) (visible_items r d) ∧
  Exists (λ it, checked it = false) (visible_items r d).

(** The tri-state as the specification words it, for any number of
    visible items. *)
Definition tri_state_as_specified (r : Z) (d : Dom) : Prop :=
  ∀ h, header_of r d = Some h →
    (header_checked h = true
     ↔ Forall (λ it, checked it = true) (visible_items r d)) ∧
    (header_indeterminate h = true ↔ some_not_all_checked r d).

(** The tri-state the code computes: a header is checked only when there
    is a visible item to be checked. *)
Definition tri_state (r : Z) (d : Dom) : Prop :=
  ∀ h, header_of r d = Some h →
    (header_checked h = true
     ↔ visible_items r d ≠ [] ∧
       Forall (λ it, checked it = true) (visible_items r d)) ∧
    (header_indeterminate h = true ↔ some_not_all_checked r d).

(** The filter as the specification words it: the name itself is
    searched for the lowercased term. *)
Definition shown_as_specified (m : Modal) : Prop :=
  Forall
    (λ it,
       is_shown it = true ↔
       (includes (name it) (toLowerCase (fishSearch (dom m))) = true
        ∨ fishSearch (dom m) = "") ∧
       (string_of_Z (rarity it) = rarityFilter (dom m)
        ∨ rarityFilter (dom m) = "") ∧
       fishId it ∉ selectedSet m)
    (totalFishList (dom m))
  ∧ totalFishCount (dom m)
    = length (List.filter is_shown (totalFishList (dom m))).

(** The filter the code computes: name and term are both lowercased. *)
Definition shown_case_insensitive (m : Modal) : Prop :=
  Forall
    (λ it,
       is_shown it = true ↔
       (includes (toLowerCase (name it)) (toLowerCase (fishSearch (dom m)))
        = true
        ∨ fishSearch (dom m) = "") ∧
       (string_of_Z (rarity it) = rarityFilter (dom m)
        ∨ rarityFilter (dom m) = "") ∧
       fishId it ∉ selectedSet m)
    (totalFishList (dom m))
  ∧ totalFishCount (dom m)
    = length (List.filter is_shown (totalFishList (dom m))).

(** A stand-in for [parseFloat] on the few texts the examples type. *)
Definition parseFloat_demo (s : string) : float :=
  if String.eqb s "0.5" then 0.5%float
  else if String.eqb s "0.3" then 0.3%float
  else if String.eqb s "0.15" then 0.15%float
  else if String.eqb s "0.04" then 0.04%float
  else if String.eqb s "0.01" then 0.01%float
  else if String.eqb s "0" then 0%float
  else nan.

Definition parseInt_demo (s : string) : option Z := Z_of_string s.

Definition server_demo (method url : string) (body : Payload) : Response :=
  mkResponse true "" [].

(** A form as the create dialog renders it, with the given rarity
    weights typed in. *)
Definition form_demo (r1 r2 r3 r4 r5 r6 : string) : ZoneForm :=
  mkZoneForm "7" "lake" "" "0" "10" true false "" "" r1 r2 r3 r4 r5 r6
    false "" None.

(** A dialog shown again: [show.bs.modal] renders the form anew and
    runs [setupFishSelection] while the weak map still holds the set of
    the previous session. *)
Definition shown_again (stale : IdSet) (allFishData : list Fish) : Modal :=
  setupFishSelection (mkModal stale (renderForm allFishData)).

(** A small catalog for the worked examples. *)
Definition pond : list Fish :=
  [mkFish 1 1 10 "carp"; mkFish 2 3 250 "koi"; mkFish 3 1 15 "Perch"].

From Stdlib Require Import Sorted.

(** ** Further vocabulary *)

(** The check boxes of the candidate list, in document order. *)
Definition candidate_boxes (m : Modal) : list bool :=
  map checked (totalFishList (dom m)).

(** The fish [renderForm] offers: those whose rarity is one of the ten
    the loop runs over. *)
Definition offered (f : Fish) : bool :=
  (1 <=? fish_rarity f) && (fish_rarity f <=? 10).

(** What [renderForm] fixes once and for all: which headers there are
    and which candidates, with their data, in document order. *)
Definition skeleton (m : Modal) : list Z * list ItemData :=
  (map header_rarity (rarityHeaders (dom m)),
   map item_data (totalFishList (dom m))).

(** The rarities [renderForm] finds at least one fish for. *)
Definition populated (allFishData : list Fish) : list Z :=
  List.filter (λ r, (0 <? length (fishByRarity allFishData r))%nat) rarities.

(** ** Opening and closing a dialog ([setupModal], [getZoneById]) *)

(** A zone of [zonesData], as far as the selector reads it. The list of
    ids may be missing. *)
Record Zone := mkZone {
  zone_id : Z;
  specific_fish_ids : option (list Z)
}.

Definition getZoneById (zonesData : list Zone) (zoneId : Z) : option Zone :=
  List.find (λ z, zone_id z =? zoneId) zonesData.

(** The page with the [_currentZone] property of each container. *)
Record Screen := mkScreen {
  page : Page.t;
  currentZone : Page.Container → option Zone
}.

(** The modal body once [innerHTML] is the empty string. *)
Definition empty_body : Dom := mkDom [] [] [] "" "" 0 0 0 false "".

Section Dialog.

Variable parseInt : string → option Z.
Variable allFishData : list Fish.
Variable zonesData : list Zone.

(** [show.bs.modal]: [zoneId] is the [data-bs-id] of the button that
    opened the dialog, if any. The body is rendered anew, then
    [setupFishSelection] runs on the container. *)
Definition show_modal (zoneId : option string) (c : Page.Container)
    (s : Screen) : Screen :=
  let zone :=
    match zoneId with
    | Some z =>
        if truthy z
        then match parseInt z with
             | Some n => getZoneById zonesData n
             | None => None
             end
        else None
    | None => None
    end in
  mkScreen
    (Page.on c
       (λ m, setupFishSelection (mkModal (selectedSet m)
                                   (renderForm allFishData)))
       (page s))
    (λ c', if decide (c' = c) then zone else currentZone s c').

(** [shown.bs.modal]: [zone?.specific_fish_ids || []] is initialised. *)
Definition shown_modal (c : Page.Container) (s : Screen) : Screen :=
  let ids :=
    match currentZone s c with
    | Some zone => default [] (specific_fish_ids zone)
    | None => []
    end in
  mkScreen (Page.initializeSelectedFish ids c (page s)) (currentZone s).

(** [hidden.bs.modal]: the body is emptied and the zone forgotten; the
    weak map is not touched. *)
Definition hidden_modal (c : Page.Container) (s : Screen) : Screen :=
  mkScreen
    (Page.mk (Page.containerToSelectedIds (page s))
       (λ c', if decide (c' = c) then empty_body else Page.domOf (page s) c'))
    (λ c', if decide (c' = c) then None else currentZone s c').

End Dialog.

(** ** The other handlers of the form ([hookFormHandlers]) *)

(** [form.querySelectorAll('.rarity-input')], in document order. *)
Definition rarity_inputs (form : ZoneForm) : list string :=
  [rarity_1 form; rarity_2 form; rarity_3 form; rarity_4 form;
   rarity_5 form; rarity_6plus form].

(** The bodies of the requests among some effects. *)
Definition sent_payloads (effects : list Effect) : list Payload :=
  flat_map (λ e, match e with Fetch _ _ body => [body] | Reload => [] end)
    effects.

(** ** Single and double clicks ([handleFishClick]) *)

(** The dialog with the closure variable [clickTimer] of
    [setupFishSelection]: the row whose single click waits for its
    220 ms, if any. *)
Record Clicking := mkClicking {
  dialog : Modal;
  clickTimer : option nat
}.

(** A click on row [i] of the candidate list: the second click within
    the delay cancels the timer and adds the fish of the row it hit. *)
Definition handleFishClick (i : nat) (c : Clicking) : Clicking :=
  match clickTimer c with
  | Some _ => mkClicking (handleFishDblClick i (dialog c)) None
  | None => mkClicking (dialog c) (Some i)
  end.

(** The delay elapses: the pending click toggles its row. A cleared
    timer never fires. *)
Definition timer_fires (c : Clicking) : Clicking :=
  match clickTimer c with
  | Some i => mkClicking (toggleFishSelection_total i (dialog c)) None
  | None => c
  end.

Inductive Pointer :=
  | RowClick (i : nat)
  | Elapsed
  | Handled (e : Event).

Definition pointer_step (c : Clicking) (p : Pointer) : Clicking :=
  match p with
  | RowClick i => handleFishClick i c
  | Elapsed => timer_fires c
  | Handled e => mkClicking (step (dialog c) e) (clickTimer c)
  end.

(** ** Dates for the time inputs ([formatDateTimeForInput]) *)

(** The local-time fields of a [Date], as its getters return them:
    months count from 0. *)
Record LocalTime := mkLocalTime {
  getFullYear : Z;
  getMonth : Z;
  getDate : Z;
  getHours : Z;
  getMinutes : Z
}.

Fixpoint repeat_char (n : nat) (c : ascii) : string :=
  match n with
  | O => EmptyString
  | S k => String c (repeat_char k c)
  end.

(** [s.padStart(targetLength, c)] for a one-character pad. *)
Definition padStart (targetLength : nat) (c : ascii) (s : string) : string :=
  repeat_char (targetLength - String.length s) c +:+ s.

Section DateInput.

(** [new Date(s)], with [None] for an invalid date. *)
Variable parseDate : string → option LocalTime.

Definition formatDateTimeForInput (dateTimeString : option string) : string :=
  match dateTimeString with
  | None => ""
  | Some s =>
      if truthy s
      then match parseDate s with
           | None => ""
           | Some date =>
               let year := string_of_Z (getFullYear date) in
               let month := padStart 2 "0" (string_of_Z (getMonth date + 1)) in
               let day := padStart 2 "0" (string_of_Z (getDate date)) in
               let hours := padStart 2 "0" (string_of_Z (getHours date)) in
               let minutes :=
                 padStart 2 "0" (string_of_Z (getMinutes date)) in
               year +:+ "-" +:+ month +:+ "-" +:+ day +:+ "T" +:+ hours
               +:+ ":" +:+ minutes
           end
      else ""
  end.

End DateInput.

(** A stand-in for [new Date] on one text. *)
Definition parseDate_demo (s : string) : option LocalTime :=
  if String.eqb s "2025-03-09T07:05:00" then Some (mkLocalTime 2025 2 9 7 5)
  else None.

(** ** The rarity inputs [renderForm] fills *)

Definition default_distribution : list float :=
  [0.5; 0.3; 0.15; 0.04; 0.01; 0]%float.

(** [while (rarityDistribution.length < 6) rarityDistribution.push(0)],
    with a bound on the number of turns. *)
Fixpoint pad_loop (fuel : nat) (rarityDistribution : list float)
  : list float :=
  match fuel with
  | O => rarityDistribution
  | S k =>
      if (length rarityDistribution <? 6)%nat
      then pad_loop k (rarityDistribution ++ [0%float])
      else rarityDistribution
  end.

(** [zone?.configs?.rarity_distribution || [0.5, ...]], then the loop.
    An array, even empty, is truthy. *)
Definition form_rarity_distribution (fuel : nat)
    (configured : option (list float)) : list float :=
  pad_loop fuel (default default_distribution configured).

(** ** What an initialisation reads *)

(** The part of a dialog [initializeSelectedFish] depends on: the
    candidates and headers as rendered, and the two filter inputs. *)
Definition rendered (m : Modal) :=
  (skeleton m, fishSearch (dom m), rarityFilter (dom m)).

(** The part of a dialog [updateSelectedStats] and the filter read. *)
Definition lists (m : Modal) :=
  (selectedSet m, totalFishList (dom m), rarityHeaders (dom m),
   selectedFishList (dom m), fishSearch (dom m), rarityFilter (dom m)).

(** ** The time switch ([applyTimeState]) *)

Definition with_time (limit : bool) (from until : string) (form : ZoneForm)
  : ZoneForm :=
  mkZoneForm (input_id form) (input_name form) (input_description form)
    (input_daily_rare_fish_quota form) (input_fishing_cost form)
    (is_active form) limit from until (rarity_1 form) (rarity_2 form)
    (rarity_3 form) (rarity_4 form) (rarity_5 form) (rarity_6plus form)
    (requires_pass form) (input_required_item_id form)
    (form_error_alert form).

(** [applyTimeState]: with the switch off both inputs are disabled and
    emptied. An input is disabled exactly when the switch is off, so the
    [disabled] flags are the negation of [limit_time]. *)
Definition applyTimeState (form : ZoneForm) : ZoneForm :=
  if limit_time form then form else with_time false "" "" form.

(** What the user can do to the time window: flip the switch, or type in
    one of the two inputs, which a disabled input does not take. *)
Inductive TimeEdit :=
  | FlipLimit
  | TypeFrom (s : string)
  | TypeUntil (s : string).

Definition time_step (form : ZoneForm) (e : TimeEdit) : ZoneForm :=
  match e with
  | FlipLimit =>
      applyTimeState
        (with_time (negb (limit_time form)) (input_available_from form)
           (input_available_until form) form)
  | TypeFrom s =>
      if limit_time form
      then with_time true s (input_available_until form) form
      else form
  | TypeUntil s =>
      if limit_time form
      then with_time true (input_available_from form) s form
      else form
  end.

(** The form once [hookFormHandlers] has run, then edited. *)
Definition time_edited (form : ZoneForm) (es : list TimeEdit) : ZoneForm :=
  fold_left time_step es (applyTimeState form).

(** ** Deleting a zone ([deleteZone]) *)

Inductive PageEffect :=
  | Request (method url : string)
  | AlertBox (text : string).

(** [cards] are the ids of the zone cards of the page, in document
    order; [confirmed] is the answer to the confirmation. When the page
    has no card for the zone, [getElementById] gives [null] and the
    handler stops on the exception: no card is removed either way. *)
Definition deleteZone (confirmed : bool) (server : string → string → Response)
    (zoneId : Z) (cards : list Z) : list Z * list PageEffect :=
  if confirmed
  then
    let url := "/admin/api/zones/" +:+ string_of_Z zoneId in
    let response := server "DELETE" url in
    if ok response
    then (remove_first (λ z, z =? zoneId) cards, [Request "DELETE" url])
    else (cards,
          [Request "DELETE" url;
           AlertBox ("删除失败: "
                     +:+ (if truthy (message response)
                          then message response else "未知错误"))])
  else (cards, []).

(** ** The total value, in doubles *)

(** [updateSelectedStats] adds up [parseInt(item.dataset.value)] over the
    nodes of the selected list. The numbers of the page are doubles and
    a [data-value] attribute is a text: [renderForm] writes
    [`${fish.base_value}`] into it and the total reads it back with
    [parseInt]. This module follows the selection operations on what the
    total depends on: the set, the id and the [data-value] text of every
    row, and the running sum as the double it is. The filter, which
    every operation ends with, writes neither the set, the selected list
    nor the total, and is left out; so are the other attributes of a
    row. *)
Module Totals.

(** A fish of [allFishData]: [base_value] is a number of the page. *)
Record Fish := mkFish {
  fish_id : Z;
  fish_rarity : Z;
  base_value : float
}.

(** A [.fish-item]: the id its selectors match and the text of its
    [data-value] attribute. *)
Record Row := mkRow {
  row_id : Z;
  data_value : string
}.

(** [totalValue] is the number [#totalValue] shows, before
    [toLocaleString] renders it. *)
Record Dialog := mkDialog {
  selectedSet : IdSet;
  totalFishList : list Row;
  selectedFishList : list Row;
  totalValue : float
}.

Definition has_row_id (id : Z) (r : Row) : bool := row_id r =? id.

Definition find_row (id : Z) (l : list Row) : option Row :=
  List.find (has_row_id id) l.

Definition fishByRarity (allFishData : list Fish) (r : Z) : list Fish :=
  List.filter (λ f, fish_rarity f =? r) allFishData.

Section Numbers.

(** [parseInt] of a text, [NaN] included, and the text of a number in a
    template literal. *)
Variable parseInt : string → float.
Variable numberToString : float → string.

Definition candidate_row (f : Fish) : Row :=
  mkRow (fish_id f) (numberToString (base_value f)).

(** The rows [renderForm] writes, rarity by rarity from 1 to 10. *)
Definition renderForm (allFishData : list Fish) : list Row :=
  flat_map
    (λ r, if (0 <? length (fishByRarity allFishData r))%nat
          then map candidate_row (fishByRarity allFishData r)
          else [])
    rarities.

(** The dialog as [show.bs.modal] leaves it: freshly rendered, the total
    showing 0, and in the weak map the set of the previous session,
    empty the first time. *)
Definition shown (stale : IdSet) (allFishData : list Fish) : Dialog :=
  mkDialog stale (renderForm allFishData) [] 0%float.

Definition updateSelectedStats (d : Dialog) : Dialog :=
  mkDialog (selectedSet d) (totalFishList d) (selectedFishList d)
    (fold_left
       (λ totalValue item, (totalValue + parseInt (data_value item))%float)
       (selectedFishList d) 0%float).

Definition _addFishToSelected_internal (id : Z) (d : Dialog) : Dialog :=
  if has (selectedSet d) id then d
  else
    let s := set_add id (selectedSet d) in
    match find_row id (totalFishList d) with
    | None => mkDialog s (totalFishList d) (selectedFishList d) (totalValue d)
    | Some totalItem =>
        mkDialog s (totalFishList d)
          (selectedFishList d
           ++ [mkRow (row_id totalItem) (data_value totalItem)])
          (totalValue d)
    end.

Definition addFishToSelected (id : Z) (d : Dialog) : Dialog :=
  updateSelectedStats (_addFishToSelected_internal id d).

Definition removeFishFromSelected (id : Z) (d : Dialog) : Dialog :=
  if negb (has (selectedSet d) id) then d
  else
    updateSelectedStats
      (mkDialog (set_delete id (selectedSet d)) (totalFishList d)
         (remove_first (has_row_id id) (selectedFishList d))
         (totalValue d)).

Definition clearAllSelected (d : Dialog) : Dialog :=
  let ids := selectedSet d in
  fold_left (λ acc id, removeFishFromSelected id acc) ids d.

Definition initializeSelectedFish (ids : list Z) (d : Dialog) : Dialog :=
  updateSelectedStats
    (fold_left (λ acc id, _addFishToSelected_internal id acc) ids
       (mkDialog [] (totalFishList d) [] (totalValue d))).

(** The selection operations; the buttons and the double clicks are
    sequences of them. *)
Inductive Op :=
  | AddId (id : Z)
  | RemoveId (id : Z)
  | ClearIds
  | InitIds (ids : list Z).

Definition step (d : Dialog) (o : Op) : Dialog :=
  match o with
  | AddId id => addFishToSelected id d
  | RemoveId id => removeFishFromSelected id d
  | ClearIds => clearAllSelected d
  | InitIds ids => initializeSelectedFish ids d
  end.

Definition run (d : Dialog) (os : list Op) : Dialog := fold_left step os d.

(** A dialog once [shown.bs.modal] has initialised it, whatever set the
    previous session left, and after any operations since. The first
    opening before its initialisation is the case of no stale id and no
    initial id. *)
Definition opened (stale : IdSet) (allFishData : list Fish) (ids : list Z)
    (os : list Op) : Dialog :=
  run (initializeSelectedFish ids (shown stale allFishData)) os.

(** The fish the candidate list shows, in document order, and the one a
    selector [[data-fish-id='id']] finds the row of. *)
Definition listed (allFishData : list Fish) : list Fish :=
  flat_map (fishByRarity allFishData) rarities.

Definition fish_of (allFishData : list Fish) (id : Z) : option Fish :=
  List.find (λ f, fish_id f =? id) (listed allFishData).

(** The selected ids that have a candidate, each as the fish its row was
    rendered from, in selection order. *)
Definition listed_selected (allFishData : list Fish) (s : IdSet)
  : list Fish :=
  omap (fish_of allFishData) s.

(** A base value as the total reads it back from the attribute. *)
Definition read_back (f : Fish) : float :=
  parseInt (numberToString (base_value f)).

(** The total as the code computes it. *)
Definition total_as_computed (allFishData : list Fish) (d : Dialog) : Prop :=
  totalValue d
  = fold_left
      (λ totalValue item, (totalValue + parseInt (data_value item))%float)
      (selectedFishList d) 0%float
  ∧ selectedFishList d
    = map candidate_row (listed_selected allFishData (selectedSet d))
  ∧ totalValue d
    = fold_left (λ totalValue f, (totalValue + read_back f)%float)
        (listed_selected allFishData (selectedSet d)) 0%float.

(** The sum of the base values of some ids, against the catalog of the
    page: undefined as soon as an id has no fish. *)
Definition base_value_sum (allFishData : list Fish) (ids : list Z)
  : option float :=
  fold_left
    (λ acc id,
       match acc, List.find (λ f, fish_id f =? id) allFishData with
       | Some a, Some f => Some (a + base_value f)%float
       | _, _ => None
       end)
    ids (Some 0%float).

(** The total as the specification words it. *)
Definition total_as_specified (allFishData : list Fish) (d : Dialog) : Prop :=
  totalValue d
  = fold_left
      (λ totalValue item, (totalValue + parseInt (data_value item))%float)
      (selectedFishList d) 0%float
  ∧ base_value_sum allFishData (selectedSet d) = Some (totalValue d).

(** What the operations keep. *)
Definition Inv (d : Dialog) : Prop :=
  NoDup (selectedSet d)
  ∧ selectedFishList d = omap (λ i, find_row i (totalFishList d))
                           (selectedSet d)
  ∧ totalValue d
    = fold_left
        (λ totalValue item, (totalValue + parseInt (data_value item))%float)
        (selectedFishList d) 0%float.

End Numbers.

End Totals.

(** Stand-ins for [parseInt] and for the text of a number on the few
    values the examples use. *)
Definition parseInt_double_demo (s : string) : float :=
  if String.eqb s "10" then 10%float
  else if String.eqb s "2" then 2%float
  else if String.eqb s "9007199254740991" then 9007199254740991%float
  else if String.eqb s "1e+21" then 1%float
  else if String.eqb s "10.5" then 10%float
  else nan.

Definition numberToString_demo (x : float) : string :=
  if PrimFloat.eqb x 10 then "10"
  else if PrimFloat.eqb x 2 then "2"
  else if PrimFloat.eqb x 9007199254740991 then "9007199254740991"
  else if PrimFloat.eqb x 1e21 then "1e+21"
  else if PrimFloat.eqb x 10.5 then "10.5"
  else "NaN".

(** ** Gestures that reach no listener *)

(** The search box listens to [keyup] only: a text pasted or dropped
    with the mouse changes the box and runs no filter. *)
Inductive Gesture :=
  | Fires (e : Event)
  | PasteSearch (s : string).

Definition gesture_step (m : Modal) (g : Gesture) : Modal :=
  match g with
  | Fires e => step m e
  | PasteSearch s => with_dom (with_fishSearch s (dom m)) m
  end.

(** The candidate list is the output of the filter for the set and the
    rarity of the dialog and for the search text [term]. *)
Definition filtered_for (term : string) (m : Modal) : Prop :=
  Forall
    (λ it, is_shown it
           = isVisible (toLowerCase term) (rarityFilter (dom m))
               (selectedSet m) it)
    (totalFishList (dom m))
  ∧ totalFishCount (dom m)
    = length (List.filter is_shown (totalFishList (dom m))).

(** What [filtered_for] looks at in a dialog. *)
Definition filter_view (m : Modal) :=
  (selectedSet m, rarityFilter (dom m), totalFishCount (dom m),
   map (λ it, (item_data it, display_none it)) (totalFishList (dom m))).

(** ** The live feedback of the rarity inputs ([hookFormHandlers]) *)

(** The six inputs of class [rarity-input], by name. *)
Inductive RarityField :=
  | Rarity1
  | Rarity2
  | Rarity3
  | Rarity4
  | Rarity5
  | Rarity6plus.

Definition with_rarity (field : RarityField) (value : string)
    (form : ZoneForm) : ZoneForm :=
  mkZoneForm (input_id form) (input_name form) (input_description form)
    (input_daily_rare_fish_quota form) (input_fishing_cost form)
    (is_active form) (limit_time form) (input_available_from form)
    (input_available_until form)
    (match field with Rarity1 => value | _ => rarity_1 form end)
    (match field with Rarity2 => value | _ => rarity_2 form end)
    (match field with Rarity3 => value | _ => rarity_3 form end)
    (match field with Rarity4 => value | _ => rarity_4 form end)
    (match field with Rarity5 => value | _ => rarity_5 form end)
    (match field with Rarity6plus => value | _ => rarity_6plus form end)
    (requires_pass form) (input_required_item_id form)
    (form_error_alert form).

(** The text inputs of the form outside the rarity row. *)
Inductive TextField :=
  | NameField
  | DescriptionField
  | QuotaField
  | CostField.

Definition with_text (field : TextField) (value : string)
    (form : ZoneForm) : ZoneForm :=
  mkZoneForm (input_id form)
    (match field with NameField => value | _ => input_name form end)
    (match field with
     | DescriptionField => value
     | _ => input_description form
     end)
    (match field with
     | QuotaField => value
     | _ => input_daily_rare_fish_quota form
     end)
    (match field with CostField => value | _ => input_fishing_cost form end)
    (is_active form) (limit_time form) (input_available_from form)
    (input_available_until form) (rarity_1 form) (rarity_2 form)
    (rarity_3 form) (rarity_4 form) (rarity_5 form) (rarity_6plus form)
    (requires_pass form) (input_required_item_id form)
    (form_error_alert form).

(** The form with the class list of [#rarity-sum-feedback]: whether the
    line carries [text-danger]. The text of the line, a [toFixed]
    rendering of the sum, is not modelled. *)
Record RarityPanel := mkRarityPanel {
  panel_form : ZoneForm;
  feedback_text_danger : bool
}.

(** [renderForm] writes the line with the classes [form-text mt-1] and
    nothing else, whatever the six values are. *)
Definition rendered_panel (form : ZoneForm) : RarityPanel :=
  mkRarityPanel form false.

(** What a user types into the form: each fires an [input] event on the
    control it changes. *)
Inductive FormInput :=
  | RarityInput (field : RarityField) (value : string)
  | TextInput (field : TextField) (value : string)
  | TimeInput (e : TimeEdit).

Definition is_rarity_input (e : FormInput) : bool :=
  match e with
  | RarityInput _ _ => true
  | _ => false
  end.

Section Feedback.

Variable parseFloat : string → float.

(** The [reduce] of the listener over the six inputs, from 0. *)
Definition rarity_input_sum (form : ZoneForm) : float :=
  fold_left (λ acc input, (acc + float_or (parseFloat input) 0)%float)
    (rarity_inputs form) 0%float.

(** The [input] listener of the form; [rarity_target] is whether the
    target of the event has the class [rarity-input]. *)
Definition form_input (rarity_target : bool) (p : RarityPanel) : RarityPanel :=
  if rarity_target
  then mkRarityPanel (panel_form p)
         (off_by_more_than_1e_4 (rarity_input_sum (panel_form p)))
  else p.

(** The control takes the text, then the event reaches the listener. *)
Definition panel_step (p : RarityPanel) (e : FormInput) : RarityPanel :=
  match e with
  | RarityInput field value =>
      form_input true
        (mkRarityPanel (with_rarity field value (panel_form p))
           (feedback_text_danger p))
  | TextInput field value =>
      form_input false
        (mkRarityPanel (with_text field value (panel_form p))
           (feedback_text_danger p))
  | TimeInput e =>
      form_input false
        (mkRarityPanel (time_step (panel_form p) e)
           (feedback_text_danger p))
  end.

Definition typed (form : ZoneForm) (es : list FormInput) : RarityPanel :=
  fold_left panel_step es (rendered_panel form).

End Feedback.

(** The class is the verdict on the six values from a rarity input on. *)
Definition feedback_current (parseFloat : string → float) (p : RarityPanel)
  : Prop :=
  feedback_text_danger p
  = off_by_more_than_1e_4 (rarity_input_sum parseFloat (panel_form p)).

(** ** The submission and what the network makes of it *)

(** What [await fetch(...)] and, after an answer that is not ok,
    [await response.json()] come to. The handler has no [try]: when
    [fetch] rejects, or when the body cannot be read as an object with a
    message, the handler stops there. [result] holds the message and the
    values of [errors] as [showFormError] renders them. *)
Inductive Reply :=
  | FetchRejected
  | ResponseOk
  | ResponseNotOk (result : option (string * list string)).

Section SubmitReply.

Variable parseFloat : string → float.
Variable parseInt : string → option Z.
Variable network : string → string → Payload → Reply.

Definition submit_payload (form : ZoneForm) (m : Modal) : Payload :=
  mkPayload (parseInt (input_id form)) (input_name form)
    (input_description form)
    (int_or (parseInt (input_daily_rare_fish_quota form)) 0)
    (int_or (parseInt (input_fishing_cost form)) 10)
    (is_active form)
    (if limit_time form then input_available_from form else "")
    (if limit_time form then input_available_until form else "")
    (rarityDistribution parseFloat form)
    (selectedSet m)
    (requires_pass form)
    (if requires_pass form
     then match parseInt (input_required_item_id form) with
          | Some n => if n =? 0 then None else Some n
          | None => None
          end
     else None).

Definition submit_edit (zoneId : option string) : bool :=
  match zoneId with Some z => truthy z | None => false end.

Definition submit_url (zoneId : option string) : string :=
  if submit_edit zoneId then "/admin/api/zones/" +:+ default "" zoneId
  else "/admin/api/zones".

Definition submit_method (zoneId : option string) : string :=
  if submit_edit zoneId then "PUT" else "POST".

(** The submit listener with every way its two [await]s can end. *)
Definition submit_reply (zoneId : option string) (form : ZoneForm) (m : Modal)
  : ZoneForm * Modal * list Effect :=
  if off_by_more_than_1e_4 (rarity_sum parseFloat form)
  then (showFormError form rarity_error [], m, [])
  else
    let payload := submit_payload form m in
    let url := submit_url zoneId in
    let method := submit_method zoneId in
    match network method url payload with
    | FetchRejected => (form, m, [Fetch method url payload])
    | ResponseOk => (form, m, [Fetch method url payload; Reload])
    | ResponseNotOk None => (form, m, [Fetch method url payload])
    | ResponseNotOk (Some (message, errors)) =>
        (showFormError form message errors, m, [Fetch method url payload])
    end.

End SubmitReply.

(** The network of a server that always answers with a readable body. *)
Definition answering (server : string → string → Payload → Response)
    (method url : string) (body : Payload) : Reply :=
  if ok (server method url body) then ResponseOk
  else ResponseNotOk (Some (message (server method url body),
                            errors (server method url body))).
(** * Properties *)

(** ** Decimal renderings and the comma-joined list *)

Lemma Z_of_string_of_Z (z : Z) : Z_of_string (string_of_Z z) = Some z.
Proof.
  unfold Z_of_string, string_of_Z.
  rewrite NilZero.isi.
  - simpl. f_equal. apply DecimalZ.of_to.
  - destruct z; simpl; try discriminate.
    intros H. injection H as H. by apply Unsigned.to_uint_nonnil in H.
  - destruct z; simpl; try discriminate.
    intros H. injection H as H. by apply Unsigned.to_uint_nonnil in H.
Qed.

Lemma string_of_uint_decimal (d : Decimal.uint) :
  all_chars decimal_char (NilEmpty.string_of_uint d) = true.
Proof. induction d; simpl; auto. Qed.

Lemma string_of_uint_nonempty (d : Decimal.uint) :
  d ≠ Decimal.Nil → NilEmpty.string_of_uint d ≠ EmptyString.
Proof. destruct d; simpl; congruence. Qed.

Lemma string_of_Z_decimal (z : Z) :
  all_chars decimal_char (string_of_Z z) = true.
Proof.
  unfold string_of_Z.
  destruct z as [|p|p]; simpl; [reflexivity| |].
  - destruct (Pos.to_uint p); try apply string_of_uint_decimal; reflexivity.
  - destruct (Pos.to_uint p); try apply string_of_uint_decimal; reflexivity.
Qed.

Lemma string_of_Z_nonempty (z : Z) : string_of_Z z ≠ EmptyString.
Proof.
  unfold string_of_Z.
  destruct z as [|p|p]; simpl; try discriminate.
  pose proof (Unsigned.to_uint_nonnil p) as Hp.
  destruct (Pos.to_uint p); simpl; congruence.
Qed.

Lemma split_on_decimal (s : string) :
  all_chars decimal_char s = true → split_on comma s = [s].
Proof.
  induction s as [|a s IH]; simpl; [reflexivity|].
  intros [Ha Hs]%andb_prop.
  rewrite (IH Hs).
  destruct (Ascii.eqb a comma) eqn:E; [|reflexivity].
  apply Ascii.eqb_eq in E. subst a. discriminate.
Qed.

Lemma split_on_app (s t : string) :
  all_chars decimal_char s = true →
  split_on comma (s +:+ String comma t) = s :: split_on comma t.
Proof.
  induction s as [|a s IH]; simpl; [reflexivity|].
  intros [Ha Hs]%andb_prop.
  rewrite (IH Hs).
  destruct (Ascii.eqb a comma) eqn:E; [|reflexivity].
  apply Ascii.eqb_eq in E. subst a. discriminate.
Qed.

Lemma split_join (l : list string) :
  l ≠ [] →
  Forall (λ s, all_chars decimal_char s = true) l →
  split_on comma (join "," l) = l.
Proof.
  induction l as [|x l IH]; [congruence|].
  intros _ Hall. inversion Hall as [|? ? Hx Hl]; subst.
  destruct l as [|y l].
  - simpl. by apply split_on_decimal.
  - change (join "," (x :: y :: l))
      with (x +:+ String comma (join "," (y :: l))).
    rewrite split_on_app by done. f_equal. by apply IH.
Qed.

Lemma join_nonempty (x : string) (l : list string) :
  x ≠ EmptyString → join "," (x :: l) ≠ EmptyString.
Proof.
  intros Hx. destruct l; simpl; [done|].
  destruct x; [done|discriminate].
Qed.

(** Reading back the serialization of a list of ids gives the list. *)
Lemma parse_ids_join (ids : list Z) :
  parse_ids (join "," (map string_of_Z ids)) = Some ids.
Proof.
  destruct ids as [|z ids]; [reflexivity|].
  unfold parse_ids.
  pose proof (join_nonempty (string_of_Z z) (map string_of_Z ids)
                (string_of_Z_nonempty z)) as Hne.
  change (map string_of_Z (z :: ids))
    with (string_of_Z z :: map string_of_Z ids) in *.
  destruct (join "," (string_of_Z z :: map string_of_Z ids)) eqn:E; [done|].
  rewrite <- E, split_join.
  - apply (mapM_fmap_Some Z_of_string string_of_Z (z :: ids)).
    apply Z_of_string_of_Z.
  - discriminate.
  - change (Forall (λ s, all_chars decimal_char s = true)
              (map string_of_Z (z :: ids))).
    apply List.Forall_forall. intros t [z' [<- _]]%in_map_iff.
    apply string_of_Z_decimal.
Qed.

(** ** Lists, sets and selectors *)

Lemma has_true (s : IdSet) (x : Z) : has s x = true ↔ x ∈ s.
Proof. unfold has. apply bool_decide_eq_true. Qed.

Lemma has_false (s : IdSet) (x : Z) : has s x = false ↔ x ∉ s.
Proof. unfold has. apply bool_decide_eq_false. Qed.

Lemma elem_of_filter_bool {A : Type} (p : A → bool) (l : list A) (x : A) :
  x ∈ List.filter p l ↔ x ∈ l ∧ p x = true.
Proof. rewrite !list_elem_of_In. apply filter_In. Qed.

Lemma NoDup_filter_bool {A : Type} (p : A → bool) (l : list A) :
  NoDup l → NoDup (List.filter p l).
Proof.
  induction 1 as [|x l Hx Hl IH]; simpl; [constructor|].
  destruct (p x); [|done].
  constructor; [|done].
  rewrite elem_of_filter_bool. tauto.
Qed.

Lemma filter_bool_id {A : Type} (p : A → bool) (l : list A) :
  (∀ x, x ∈ l → p x = true) → List.filter p l = l.
Proof.
  induction l as [|x l IH]; simpl; [done|].
  intros H. rewrite (H x) by left. f_equal. apply IH.
  intros y Hy. apply H. by right.
Qed.

Lemma filter_bool_comm {A : Type} (p q : A → bool) (l : list A) :
  List.filter p (List.filter q l) = List.filter q (List.filter p l).
Proof.
  induction l as [|x l IH]; simpl; [done|].
  destruct (q x) eqn:Q, (p x) eqn:P; simpl; rewrite ?Q, ?P, IH; done.
Qed.

Lemma set_delete_spec (x y : Z) (s : IdSet) :
  y ∈ set_delete x s ↔ y ∈ s ∧ y ≠ x.
Proof.
  unfold set_delete. rewrite elem_of_filter_bool.
  rewrite negb_true_iff, Z.eqb_neq. done.
Qed.

Lemma set_add_spec (x y : Z) (s : IdSet) :
  y ∈ set_add x s ↔ y ∈ s ∨ y = x.
Proof.
  unfold set_add. destruct (has s x) eqn:E.
  - apply has_true in E. split; [by left|]. intros [?| ->]; done.
  - rewrite elem_of_app, list_elem_of_singleton. done.
Qed.

Lemma set_add_NoDup (x : Z) (s : IdSet) : NoDup s → NoDup (set_add x s).
Proof.
  intros Hs. unfold set_add. destruct (has s x) eqn:E; [done|].
  apply has_false in E. apply NoDup_app. split_and!; [done| |].
  - intros y Hy ->%list_elem_of_singleton. done.
  - apply NoDup_singleton.
Qed.

(** Removing the first node with an id from a list whose ids are
    distinct is removing every node with that id. *)
Lemma remove_first_ids (id : Z) (l : list FishItem) :
  NoDup (map fishId l) →
  map fishId (remove_first (has_id id) l) = set_delete id (map fishId l).
Proof.
  induction l as [|it l IH]; simpl; [done|].
  intros [Hit Hl]%NoDup_cons.
  unfold has_id at 1. destruct (fishId it =? id) eqn:E; simpl.
  - apply Z.eqb_eq in E. subst id. symmetry. apply filter_bool_id.
    intros y Hy. apply negb_true_iff, Z.eqb_neq. intros ->. done.
  - f_equal. by apply IH.
Qed.

Lemma remove_first_sub {A : Type} (p : A → bool) (l : list A) (x : A) :
  x ∈ remove_first p l → x ∈ l.
Proof.
  induction l as [|y l IH]; simpl; [done|].
  destruct (p y).
  - by right.
  - intros [->|H]%elem_of_cons; [left|right; auto].
Qed.

Lemma Forall_remove_first {A : Type} (P : A → Prop) (p : A → bool)
    (l : list A) :
  Forall P l → Forall P (remove_first p l).
Proof.
  rewrite !Forall_forall. intros H x Hx. eapply H, remove_first_sub, Hx.
Qed.

(** ** Candidates and their data *)

Lemma find_item_Some (id : Z) (l : list FishItem) (it : FishItem) :
  find_item id l = Some it → fishId it = id ∧ it ∈ l.
Proof.
  unfold find_item. intros H. apply find_some in H as [Hin Hid].
  split; [by apply Z.eqb_eq|by apply list_elem_of_In].
Qed.

Lemma data_of_ext (total total' : list FishItem) (id : Z) :
  map item_data total = map item_data total' →
  data_of total id = data_of total' id.
Proof.
  unfold data_of, find_item.
  revert total'. induction total as [|x l IH]; intros [|y l'] H;
    try discriminate; [done|].
  simpl in H. injection H as Hid Hr Hv Hn Hl. simpl.
  unfold has_id at 1 3. rewrite Hid.
  destruct (fishId y =? id); simpl; [|by apply IH].
  unfold item_data. congruence.
Qed.

Lemma in_catalog_ext (total total' : list FishItem) (id : Z) :
  map item_data total = map item_data total' →
  in_catalog total id = in_catalog total' id.
Proof. intros H. unfold in_catalog. by rewrite (data_of_ext _ _ _ H). Qed.

Lemma item_data_set_display (b : bool) (l : list FishItem) :
  map item_data (map (set_display b) l) = map item_data l.
Proof. rewrite map_map. by apply map_ext. Qed.

Lemma item_data_toggle_at (i : nat) (l : list FishItem) :
  map item_data (toggle_at i l) = map item_data l.
Proof.
  unfold toggle_at. destruct (l !! i) as [it|] eqn:E; [|done].
  revert i E. induction l as [|x l IH]; intros [|i] E; simpl in *;
    try discriminate.
  - injection E as ->. done.
  - f_equal. by apply IH.
Qed.

Lemma display_toggle_at (i : nat) (l : list FishItem) :
  map display_none (toggle_at i l) = map display_none l.
Proof.
  unfold toggle_at. destruct (l !! i) as [it|] eqn:E; [|done].
  revert i E. induction l as [|x l IH]; intros [|i] E; simpl in *;
    try discriminate.
  - injection E as ->. done.
  - f_equal. by apply IH.
Qed.

(** ** The running total *)

Lemma fold_values (l : list FishItem) (a : Z) :
  fold_left (λ acc it, acc + value it) l a = a + sum_values l.
Proof.
  unfold sum_values. revert a. induction l as [|x l IH]; intros a; simpl.
  - lia.
  - rewrite (IH (a + value x)), (IH (0 + value x)). lia.
Qed.

Lemma sum_values_cons (x : FishItem) (l : list FishItem) :
  sum_values (x :: l) = value x + sum_values l.
Proof. unfold sum_values at 1. simpl. rewrite fold_values. lia. Qed.

Lemma sum_values_ext (l l' : list FishItem) :
  map item_data l = map item_data l' → sum_values l = sum_values l'.
Proof.
  revert l'. induction l as [|x l IH]; intros [|y l'] H;
    try discriminate; [done|].
  simpl in H. injection H as _ _ Hv _ Hl.
  by rewrite !sum_values_cons, (IH _ Hl), Hv.
Qed.

(** ** The invariant *)

Lemma known_ids_ext (m m' : Modal) :
  selectedSet m = selectedSet m' →
  map item_data (totalFishList (dom m))
  = map item_data (totalFishList (dom m')) →
  known_ids m = known_ids m'.
Proof.
  intros Hs Ht. unfold known_ids. rewrite Hs.
  apply filter_ext. intros id. by apply in_catalog_ext.
Qed.

Lemma fishId_of_data (l l' : list FishItem) :
  map item_data l = map item_data l' → map fishId l = map fishId l'.
Proof.
  intros H.
  assert (∀ k, map fishId k = map (λ d : ItemData, d.1.1.1) (map item_data k))
    as E by (intros k; rewrite map_map; by apply map_ext).
  by rewrite !E, H.
Qed.

Lemma data_Forall_ext (total total' sel sel' : list FishItem) :
  map item_data total = map item_data total' →
  map item_data sel = map item_data sel' →
  Forall (λ it, data_of total (fishId it) = Some (item_data it)) sel →
  Forall (λ it, data_of total' (fishId it) = Some (item_data it)) sel'.
Proof.
  intros Ht. revert sel'.
  induction sel as [|x l IH]; intros [|y l'] Hs H;
    try discriminate; [constructor|].
  simpl in Hs. injection Hs as Hid Hr Hv Hn Hl.
  apply Forall_cons in H as [Hx H].
  constructor; [|by apply IH].
  rewrite <- (data_of_ext _ _ _ Ht), <- Hid, Hx.
  unfold item_data. congruence.
Qed.

Lemma shown_Forall_ext (sel sel' : list FishItem) :
  map display_none sel = map display_none sel' →
  Forall (λ it, display_none it = false) sel →
  Forall (λ it, display_none it = false) sel'.
Proof.
  revert sel'. induction sel as [|x l IH]; intros [|y l'] Hs H;
    try discriminate; [constructor|].
  simpl in Hs. injection Hs as Hd Hl.
  apply Forall_cons in H as [Hx H].
  constructor; [congruence|by apply IH].
Qed.

Lemma Inv_view (m m' : Modal) : view m = view m' → Inv m → Inv m'.
Proof.
  unfold view. intros Hv [H1 H2 H3 H4 H5 H6 H7 H8].
  injection Hv as Hset Htot Hsel Hdisp Hc Ht He Hh.
  constructor.
  - by rewrite <- Hset.
  - rewrite <- (fishId_of_data _ _ Hsel), H2. by apply known_ids_ext.
  - by apply (data_Forall_ext _ _ _ _ Htot Hsel).
  - by apply (shown_Forall_ext _ _ Hdisp).
  - by rewrite <- Hc, <- Hset.
  - by rewrite <- Ht, <- (sum_values_ext _ _ Hsel).
  - by rewrite <- He, <- Hset.
  - by rewrite <- Hh, <- Hset.
Qed.

Lemma Inv_Core (m : Modal) : Inv m → Core m.
Proof. intros [H1 H2 H3 _ _ _ _ _]. by split_and!. Qed.

Lemma view_filterFishOptions (m : Modal) : view (filterFishOptions m) = view m.
Proof.
  unfold filterFishOptions, view. simpl.
  rewrite map_map. done.
Qed.

Lemma updateSelectedStats_Inv (m : Modal) :
  Core m → Inv (updateSelectedStats m).
Proof.
  intros (H1 & H2 & H3).
  assert (map item_data (map (set_display false) (selectedFishList (dom m)))
          = map item_data (selectedFishList (dom m))) as Hd
    by apply item_data_set_display.
  constructor; simpl; try done.
  - rewrite (fishId_of_data _ _ Hd), H2. by apply known_ids_ext.
  - by apply (data_Forall_ext (totalFishList (dom m)) _
                (selectedFishList (dom m))).
  - apply List.Forall_forall. intros it [x [<- _]]%in_map_iff. done.
  - symmetry. by apply sum_values_ext.
Qed.

Lemma updateSelectedStats_set (m : Modal) :
  selectedSet (updateSelectedStats m) = selectedSet m.
Proof. done. Qed.

Lemma filterFishOptions_set (m : Modal) :
  selectedSet (filterFishOptions m) = selectedSet m.
Proof. done. Qed.

Lemma filterFishOptions_Inv (m : Modal) : Inv m → Inv (filterFishOptions m).
Proof. apply Inv_view. symmetry. apply view_filterFishOptions. Qed.

Lemma add_internal_Core (id : Z) (m : Modal) :
  Core m → Core (_addFishToSelected_internal id m).
Proof.
  intros (H1 & H2 & H3). unfold _addFishToSelected_internal.
  destruct (has (selectedSet m) id) eqn:E; [by split_and!|].
  unfold set_add. rewrite E. apply has_false in E.
  assert (NoDup (selectedSet m ++ [id])) as Hnd.
  { apply NoDup_app. split_and!; [done| |apply NoDup_singleton].
    intros y Hy ->%list_elem_of_singleton. done. }
  destruct (find_item id (totalFishList (dom m))) as [it|] eqn:F.
  - pose proof (find_item_Some _ _ _ F) as [Hid _].
    split_and!; simpl; [done| |].
    + unfold known_ids in *. simpl.
      rewrite map_app, List.filter_app, H2. f_equal. simpl.
      unfold in_catalog, data_of. by rewrite F, Hid.
    + apply Forall_app. split; [done|].
      constructor; [|constructor]. simpl.
      unfold data_of. rewrite Hid, F. done.
  - split_and!; simpl; [done| |done].
    unfold known_ids in *. simpl.
    rewrite List.filter_app, H2. simpl.
    unfold in_catalog, data_of. rewrite F. simpl. by rewrite app_nil_r.
Qed.

Lemma add_internal_fold_Core (ids : list Z) (m : Modal) :
  Core m →
  Core (fold_left (λ acc id, _addFishToSelected_internal id acc) ids m).
Proof.
  revert m. induction ids as [|id ids IH]; intros m H; simpl; [done|].
  by apply IH, add_internal_Core.
Qed.

Lemma remove_Core (id : Z) (m : Modal) :
  Core m →
  Core (mkModal (set_delete id (selectedSet m))
          (with_selectedFishList
             (remove_first (has_id id) (selectedFishList (dom m))) (dom m))).
Proof.
  intros (H1 & H2 & H3). split_and!; simpl.
  - by apply NoDup_filter_bool.
  - unfold known_ids in *. simpl.
    rewrite remove_first_ids.
    + rewrite H2. unfold set_delete. apply filter_bool_comm.
    + rewrite H2. by apply NoDup_filter_bool.
  - by apply Forall_remove_first.
Qed.

Lemma addFishToSelected_Inv (id : Z) (m : Modal) :
  Inv m → Inv (addFishToSelected id m).
Proof.
  intros H. unfold addFishToSelected.
  by apply filterFishOptions_Inv, updateSelectedStats_Inv,
    add_internal_Core, Inv_Core.
Qed.

Lemma removeFishFromSelected_Inv (id : Z) (m : Modal) :
  Inv m → Inv (removeFishFromSelected id m).
Proof.
  intros H. unfold removeFishFromSelected.
  destruct (has (selectedSet m) id); simpl; [|done].
  by apply filterFishOptions_Inv, updateSelectedStats_Inv, remove_Core,
    Inv_Core.
Qed.

Lemma fold_Inv (f : Z → Modal → Modal) (ids : list Z) (m : Modal) :
  (∀ id m, Inv m → Inv (f id m)) →
  Inv m → Inv (fold_left (λ acc id, f id acc) ids m).
Proof.
  intros Hf. revert m. induction ids as [|id ids IH]; intros m H; simpl;
    [done|]. by apply IH, Hf.
Qed.

Lemma clearAllSelected_Inv (m : Modal) : Inv m → Inv (clearAllSelected m).
Proof. apply fold_Inv, removeFishFromSelected_Inv. Qed.

Lemma initializeSelectedFish_Inv (ids : list Z) (m : Modal) :
  Inv (initializeSelectedFish ids m).
Proof.
  unfold initializeSelectedFish.
  apply filterFishOptions_Inv, updateSelectedStats_Inv,
    add_internal_fold_Core.
  split_and!; simpl; [constructor|done|constructor].
Qed.

(** Events on check boxes, headers and the filter leave the view alone. *)
Lemma view_step_checkbox (m : Modal) (d : Dom) :
  selectedCount d = selectedCount (dom m) →
  totalValue d = totalValue (dom m) →
  emptySelectedMessage_hidden d = emptySelectedMessage_hidden (dom m) →
  specific_fish_ids_input d = specific_fish_ids_input (dom m) →
  map item_data (totalFishList d) = map item_data (totalFishList (dom m)) →
  map item_data (selectedFishList d)
  = map item_data (selectedFishList (dom m)) →
  map display_none (selectedFishList d)
  = map display_none (selectedFishList (dom m)) →
  view (with_dom d m) = view m.
Proof. unfold view. simpl. by intros -> -> -> -> -> -> ->. Qed.

Lemma view_toggle_total (i : nat) (m : Modal) :
  view (toggleFishSelection_total i m) = view m.
Proof.
  unfold toggleFishSelection_total.
  destruct (totalFishList (dom m) !! i); [|done].
  apply view_step_checkbox; simpl; try done. apply item_data_toggle_at.
Qed.

Lemma view_toggle_selected (i : nat) (m : Modal) :
  view (toggleFishSelection_selected i m) = view m.
Proof.
  unfold toggleFishSelection_selected.
  destruct (selectedFishList (dom m) !! i); [|done].
  apply view_step_checkbox; simpl; try done.
  - apply item_data_toggle_at.
  - apply display_toggle_at.
Qed.

Lemma view_select_all (r : Z) (m : Modal) :
  view (rarity_select_all_change r m) = view m.
Proof.
  unfold rarity_select_all_change.
  destruct (find (is_header r) (rarityHeaders (dom m))); [|done].
  apply view_step_checkbox; simpl; try done.
  rewrite map_map. apply map_ext. intros it.
  by destruct (of_rarity r it && is_shown it).
Qed.

Lemma step_Inv (m : Modal) (e : Event) : Inv m → Inv (step m e).
Proof.
  intros H. destruct e; simpl.
  - by apply addFishToSelected_Inv.
  - by apply removeFishFromSelected_Inv.
  - by apply clearAllSelected_Inv.
  - apply initializeSelectedFish_Inv.
  - unfold addSelectedBtn_click. by apply fold_Inv, H; apply addFishToSelected_Inv.
  - unfold removeSelectedBtn_click.
    by apply fold_Inv, H; apply removeFishFromSelected_Inv.
  - unfold fishSearch_keyup. apply filterFishOptions_Inv.
    by apply (Inv_view m).
  - unfold rarityFilter_change. apply filterFishOptions_Inv.
    by apply (Inv_view m).
  - apply (Inv_view m); [|done]. symmetry. apply view_toggle_total.
  - apply (Inv_view m); [|done]. symmetry. apply view_toggle_selected.
  - apply (Inv_view m); [|done]. symmetry.
    apply view_step_checkbox; simpl; try done. apply item_data_toggle_at.
  - apply (Inv_view m); [|done]. symmetry.
    apply view_step_checkbox; simpl; try done.
    + apply item_data_toggle_at.
    + apply display_toggle_at.
  - unfold handleFishDblClick.
    destruct (totalFishList (dom m) !! i); [|done].
    by apply addFishToSelected_Inv.
  - unfold selected_dblclick.
    destruct (selectedFishList (dom m) !! i); [|done].
    by apply removeFishFromSelected_Inv.
  - apply (Inv_view m); [|done]. symmetry. apply view_select_all.
Qed.

Lemma fresh_Inv (allFishData : list Fish) : Inv (fresh allFishData).
Proof.
  unfold fresh, setupFishSelection. apply filterFishOptions_Inv.
  constructor; simpl; try done; constructor.
Qed.

Lemma run_Inv (m : Modal) (es : list Event) : Inv m → Inv (run m es).
Proof.
  unfold run. revert m. induction es as [|e es IH]; intros m H; simpl;
    [done|]. by apply IH, step_Inv.
Qed.

(** ** Opening a dialog again *)

Lemma add_internal_count (n : nat) (id : Z) (m : Modal) :
  _addFishToSelected_internal id
    (with_dom (with_totalFishCount n (dom m)) m)
  = with_dom
      (with_totalFishCount n (dom (_addFishToSelected_internal id m)))
      (_addFishToSelected_internal id m).
Proof.
  unfold _addFishToSelected_internal. simpl.
  destruct (has (selectedSet m) id); [done|].
  by destruct (find_item id (totalFishList (dom m))).
Qed.

Lemma add_internal_fold_count (n : nat) (ids : list Z) (m : Modal) :
  fold_left (λ acc id, _addFishToSelected_internal id acc) ids
    (with_dom (with_totalFishCount n (dom m)) m)
  = with_dom
      (with_totalFishCount n
         (dom (fold_left (λ acc id, _addFishToSelected_internal id acc)
                 ids m)))
      (fold_left (λ acc id, _addFishToSelected_internal id acc) ids m).
Proof.
  revert m. induction ids as [|id ids IH]; intros m; simpl; [done|].
  by rewrite add_internal_count, IH.
Qed.

Lemma updateSelectedStats_count (n : nat) (m : Modal) :
  updateSelectedStats (with_dom (with_totalFishCount n (dom m)) m)
  = updateSelectedStats m.
Proof. done. Qed.

(** The set a dialog held in an earlier session does not survive its
    initialisation: the dialog shown again and initialised is the dialog
    shown for the first time and initialised. The states [run] reaches
    from [fresh] therefore cover every session of a dialog. *)
Lemma initialize_forgets_previous_session
    (stale : IdSet) (allFishData : list Fish) (ids : list Z) :
  initializeSelectedFish ids (shown_again stale allFishData)
  = initializeSelectedFish ids (fresh allFishData).
Proof.
  unfold initializeSelectedFish. f_equal.
  set (n := totalFishCount (dom (shown_again stale allFishData))).
  assert (reset_lists (dom (shown_again stale allFishData))
          = with_totalFishCount n (reset_lists (dom (fresh allFishData))))
    as ->.
  { unfold reset_lists, shown_again, fresh, setupFishSelection,
      filterFishOptions, with_totalFishCount. simpl. f_equal.
    rewrite !map_map. by apply map_ext. }
  change (mkModal [] (with_totalFishCount n
                        (reset_lists (dom (fresh allFishData)))))
    with (with_dom
            (with_totalFishCount n
               (dom (mkModal [] (reset_lists (dom (fresh allFishData))))))
            (mkModal [] (reset_lists (dom (fresh allFishData))))).
  rewrite add_internal_fold_count.
  apply updateSelectedStats_count.
Qed.

(** ** Set and rendered list *)

Lemma count_NoDup (id : Z) (l : list Z) :
  NoDup l →
  length (List.filter (λ y, y =? id) l) = if has l id then 1%nat else 0%nat.
Proof.
  induction 1 as [|x l Hx Hl IH]; simpl; [done|].
  destruct (x =? id) eqn:E.
  - apply Z.eqb_eq in E. subst x. simpl.
    replace (has (id :: l) id) with true
      by (symmetry; apply has_true; left).
    f_equal. rewrite IH.
    by replace (has l id) with false by (symmetry; by apply has_false).
  - rewrite IH. apply Z.eqb_neq in E.
    destruct (has l id) eqn:F.
    + apply has_true in F.
      by replace (has (x :: l) id) with true
        by (symmetry; apply has_true; by right).
    + apply has_false in F.
      replace (has (x :: l) id) with false; [done|].
      symmetry. apply has_false. intros [?|?]%elem_of_cons; [congruence|done].
Qed.

Lemma rendered_count_ids (id : Z) (m : Modal) :
  rendered_count id m
  = length (List.filter (λ y, y =? id)
              (map fishId (selectedFishList (dom m)))).
Proof.
  unfold rendered_count.
  induction (selectedFishList (dom m)) as [|it l IH]; simpl; [done|].
  unfold has_id at 1. destruct (fishId it =? id); simpl; by rewrite IH.
Qed.

Lemma Inv_one_to_one_known (m : Modal) : Inv m → one_to_one_known m.
Proof.
  intros H. destruct H as [Hnd Hids _ _ _ _ _ _].
  split_and!; [done| |].
  - intros id Hid.
    rewrite rendered_count_ids, Hids, count_NoDup
      by (by apply NoDup_filter_bool).
    unfold known_ids.
    destruct (in_catalog (totalFishList (dom m)) id) eqn:E.
    + replace (has _ id) with true; [done|].
      symmetry. apply has_true, elem_of_filter_bool. done.
    + replace (has _ id) with false; [done|].
      symmetry. apply has_false. rewrite elem_of_filter_bool.
      intros [_ ?]. congruence.
  - intros it Hit.
    assert (fishId it ∈ map fishId (selectedFishList (dom m))) as Hin.
    { apply list_elem_of_In, in_map, list_elem_of_In, Hit. }
    rewrite Hids in Hin. unfold known_ids in Hin.
    by apply elem_of_filter_bool in Hin as [? _].
Qed.

(** C1, as the code has it: whatever the events a dialog has gone
    through, the selected set has no duplicate, every id of the set
    that has an item in the candidate list is rendered by exactly one
    node of the selected list, an id of the set without a candidate item
    is rendered by none, and every rendered node carries an id of the
    set. *)
Theorem selected_list_matches_known_ids
    (allFishData : list Fish) (es : list Event) :
  one_to_one_known (run (fresh allFishData) es).
Proof. apply Inv_one_to_one_known, run_Inv, fresh_Inv. Qed.

(** C1 fails as worded: a dialog initialised with an id that has no
    candidate item keeps the id in its set and renders no node for it. *)
Lemma one_to_one_fails_for_unknown_id :
  ¬ one_to_one
      (run (fresh [mkFish 1 1 10 "carp"]) [Init [1; 99]]).
Proof.
  intros [H _]. specialize (H 99).
  assert (99 ∈ selectedSet (run (fresh [mkFish 1 1 10 "carp"])
                              [Init [1; 99]])) as Hin.
  { apply has_true. vm_compute. reflexivity. }
  apply H in Hin. vm_compute in Hin. discriminate.
Qed.

(** ** The hidden input *)

Lemma Inv_hidden_parses (m : Modal) :
  Inv m →
  parse_ids (specific_fish_ids_input (dom m)) = Some (selectedSet m).
Proof. intros H. rewrite (inv_hidden _ H). apply parse_ids_join. Qed.

(** C2: after an add and after a remove, whatever the dialog has gone
    through before, the hidden input [specific_fish_ids] is the
    comma-joined decimal rendering of the selected set, and reading it
    back gives exactly the ids of the set. *)
Theorem hidden_input_is_selected_set
    (allFishData : list Fish) (es : list Event) (id : Z) :
  (specific_fish_ids_input
     (dom (addFishToSelected id (run (fresh allFishData) es)))
   = join "," (map string_of_Z
        (selectedSet (addFishToSelected id (run (fresh allFishData) es))))
   ∧ parse_ids
       (specific_fish_ids_input
          (dom (addFishToSelected id (run (fresh allFishData) es))))
     = Some (selectedSet (addFishToSelected id (run (fresh allFishData) es))))
  ∧
  (specific_fish_ids_input
     (dom (removeFishFromSelected id (run (fresh allFishData) es)))
   = join "," (map string_of_Z
        (selectedSet
           (removeFishFromSelected id (run (fresh allFishData) es))))
   ∧ parse_ids
       (specific_fish_ids_input
          (dom (removeFishFromSelected id (run (fresh allFishData) es))))
     = Some (selectedSet
               (removeFishFromSelected id (run (fresh allFishData) es)))).
Proof.
  pose proof (run_Inv _ es (fresh_Inv allFishData)) as H.
  pose proof (addFishToSelected_Inv id _ H) as Ha.
  pose proof (removeFishFromSelected_Inv id _ H) as Hr.
  split; (split; [by apply inv_hidden|by apply Inv_hidden_parses]).
Qed.

(** ** Operations without effect *)

Lemma set_display_shown (l : list FishItem) :
  Forall (λ it, display_none it = false) l → map (set_display false) l = l.
Proof.
  induction 1 as [|it l Hit Hl IH]; simpl; [done|].
  rewrite IH. f_equal. destruct it; simpl in *. by subst.
Qed.

Lemma selection_updateSelectedStats (m : Modal) :
  Inv m → selection (updateSelectedStats m) = selection m.
Proof.
  intros [_ _ _ Hshown Hc Ht _ Hh]. unfold selection. simpl.
  by rewrite (set_display_shown _ Hshown), <- Hc, <- Ht, <- Hh.
Qed.

Lemma selection_filterFishOptions (m : Modal) :
  selection (filterFishOptions m) = selection m.
Proof. done. Qed.

(** C4: in any state a dialog can be in, adding an id that is already
    in the selected set leaves the set, the rendered selected list, the
    displayed count, the displayed total value and the hidden
    serialization as they were. *)
Theorem add_selected_id_changes_nothing
    (allFishData : list Fish) (es : list Event) (id : Z) :
  has (selectedSet (run (fresh allFishData) es)) id = true →
  selection (addFishToSelected id (run (fresh allFishData) es))
  = selection (run (fresh allFishData) es).
Proof.
  intros Hin.
  pose proof (run_Inv _ es (fresh_Inv allFishData)) as H.
  unfold addFishToSelected, _addFishToSelected_internal. rewrite Hin.
  rewrite selection_filterFishOptions.
  by apply selection_updateSelectedStats.
Qed.

Lemma add_selected_id_changes_nothing_witness :
  has (selectedSet (run (fresh [mkFish 1 1 10 "carp"; mkFish 2 3 250 "koi"])
                      [AddFish 2; AddFish 1])) 2 = true
  ∧ selection
      (addFishToSelected 2
         (run (fresh [mkFish 1 1 10 "carp"; mkFish 2 3 250 "koi"])
            [AddFish 2; AddFish 1]))
    = selection
        (run (fresh [mkFish 1 1 10 "carp"; mkFish 2 3 250 "koi"])
           [AddFish 2; AddFish 1]).
Proof.
  split; [reflexivity|].
  apply (add_selected_id_changes_nothing
           [mkFish 1 1 10 "carp"; mkFish 2 3 250 "koi"]
           [AddFish 2; AddFish 1] 2).
  reflexivity.
Defined.

(** C5: removing an id that is not in the selected set returns at once:
    the whole dialog, and so the set, the rendered selected list, the
    count, the total value and the hidden serialization, is unchanged. *)
Theorem remove_unselected_id_changes_nothing (m : Modal) (id : Z) :
  has (selectedSet m) id = false →
  removeFishFromSelected id m = m ∧
  selection (removeFishFromSelected id m) = selection m.
Proof.
  intros Hout. unfold removeFishFromSelected. by rewrite Hout.
Qed.

Lemma remove_unselected_id_changes_nothing_witness :
  has (selectedSet (run (fresh [mkFish 1 1 10 "carp"]) [AddFish 1])) 5 = false
  ∧ removeFishFromSelected 5 (run (fresh [mkFish 1 1 10 "carp"]) [AddFish 1])
    = run (fresh [mkFish 1 1 10 "carp"]) [AddFish 1].
Proof.
  split; [reflexivity|].
  apply (remove_unselected_id_changes_nothing
           (run (fresh [mkFish 1 1 10 "carp"]) [AddFish 1]) 5).
  reflexivity.
Defined.

(** ** The tri-state header *)

Lemma find_update_first {A : Type} (p : A → bool) (f : A → A) (l : list A) :
  (∀ x, p (f x) = p x) →
  List.find p (update_first p f l) = option_map f (List.find p l).
Proof.
  intros Hf. induction l as [|x l IH]; simpl; [done|].
  destruct (p x) eqn:E; simpl.
  - by rewrite Hf, E.
  - by rewrite E.
Qed.

Lemma filter_length_le {A : Type} (p : A → bool) (l : list A) :
  (length (List.filter p l) ≤ length l)%nat.
Proof. induction l as [|x l IH]; simpl; [lia|]. destruct (p x); simpl; lia. Qed.

Lemma filter_length_all {A : Type} (p : A → bool) (l : list A) :
  length l = length (List.filter p l) ↔ Forall (λ x, p x = true) l.
Proof.
  induction l as [|x l IH]; simpl.
  - split; [constructor|done].
  - pose proof (filter_length_le p l) as Hle. destruct (p x) eqn:E; simpl.
    + split.
      * intros H. constructor; [done|]. apply IH. lia.
      * intros [_ H]%Forall_cons. apply IH in H. lia.
    + split; [lia|]. intros [? _]%Forall_cons. congruence.
Qed.

Lemma filter_length_some {A : Type} (p : A → bool) (l : list A) :
  (0 < length (List.filter p l))%nat ↔ Exists (λ x, p x = true) l.
Proof.
  induction l as [|x l IH]; simpl.
  - split; [lia|by intros ?%Exists_nil].
  - destruct (p x) eqn:E; simpl.
    + split; [by left|lia].
    + rewrite IH. split; [by right|].
      intros [?|?]%Exists_cons; [congruence|done].
Qed.

Lemma filter_length_not_all {A : Type} (p : A → bool) (l : list A) :
  (length (List.filter p l) < length l)%nat
  ↔ Exists (λ x, p x = false) l.
Proof.
  induction l as [|x l IH]; simpl.
  - split; [lia|by intros ?%Exists_nil].
  - pose proof (filter_length_le p l) as Hle. destruct (p x) eqn:E; simpl.
    + rewrite <- Nat.succ_lt_mono, IH. split; [by right|].
      intros [?|?]%Exists_cons; [congruence|done].
    + split; [by left|lia].
Qed.

Lemma updateRarityCheckboxState_tri_state (r : Z) (d : Dom) :
  tri_state r (updateRarityCheckboxState r d).
Proof.
  intros h. unfold header_of, updateRarityCheckboxState. simpl.
  rewrite find_update_first by done.
  change (visible_items r (with_rarityHeaders _ d)) with (visible_items r d).
  unfold some_not_all_checked.
  change (visible_items r (with_rarityHeaders _ d)) with (visible_items r d).
  unfold checked_items.
  destruct (List.find (is_header r) (rarityHeaders d)) as [h0|];
    [|discriminate].
  simpl. intros [= <-]. simpl.
  set (items := visible_items r d).
  destruct (0 <? length items)%nat eqn:E; simpl.
  - apply Nat.ltb_lt in E.
    rewrite Nat.eqb_eq, andb_true_iff, !Nat.ltb_lt.
    rewrite filter_length_all, filter_length_some, filter_length_not_all.
    split; [|done].
    split; [|tauto]. intros H. split; [|done].
    intros Hnil. rewrite Hnil in E. simpl in E. lia.
  - apply Nat.ltb_ge in E.
    assert (items = []) as -> by (destruct items; [done|simpl in E; lia]).
    split.
    + split; [done|]. intros [? _]. done.
    + split; [done|]. by intros [?%Exists_nil _].
Qed.

(** C7, as the code has it: after [updateRarityCheckboxState], and so
    after the [change] handler of a header box, the box is checked if and
    only if the rarity has at least one visible candidate item and every
    visible one is checked, and it is indeterminate if and only if some
    but not all visible items of the rarity are checked. With no visible
    item the box is neither checked nor indeterminate. *)
Theorem rarity_header_tri_state (r : Z) (d : Dom) (m : Modal) :
  tri_state r (updateRarityCheckboxState r d) ∧
  tri_state r (dom (rarity_select_all_change r m)) ∧
  (visible_items r (updateRarityCheckboxState r d) = [] →
   ∀ h, header_of r (updateRarityCheckboxState r d) = Some h →
        header_checked h = false ∧ header_indeterminate h = false).
Proof.
  split_and!.
  - apply updateRarityCheckboxState_tri_state.
  - unfold rarity_select_all_change.
    destruct (List.find (is_header r) (rarityHeaders (dom m))) eqn:E.
    + simpl. apply updateRarityCheckboxState_tri_state.
    + intros h Hh. unfold header_of in Hh. congruence.
  - intros Hnil h Hh.
    destruct (updateRarityCheckboxState_tri_state r d h Hh) as [Hc Hi].
    split.
    + destruct (header_checked h); [|done].
      destruct Hc as [Hc _]. destruct (Hc eq_refl) as [Hne _]. done.
    + destruct (header_indeterminate h); [|done].
      destruct Hi as [Hi _]. destruct (Hi eq_refl) as [Hex _].
      rewrite Hnil in Hex. by apply Exists_nil in Hex.
Qed.

(** C7 fails as worded at zero visible items: once the only carp is
    selected the filter hides its candidate, and ticking the header of
    its rarity leaves the header unchecked although no visible item is
    unchecked. *)
Lemma header_unchecked_with_no_visible_item :
  ¬ tri_state_as_specified 1
      (dom (run (fresh [mkFish 1 1 10 "carp"]) [AddFish 1; SelectAll 1])).
Proof.
  intros H.
  destruct (H (mkRarityHeader 1 false false)) as [[_ Hc] _].
  - vm_compute. reflexivity.
  - assert (visible_items 1
              (dom (run (fresh [mkFish 1 1 10 "carp"])
                      [AddFish 1; SelectAll 1])) = []) as Hv
      by (vm_compute; reflexivity).
    rewrite Hv in Hc. specialize (Hc (List.Forall_nil _)). discriminate.
Qed.

(** ** Two dialogs *)

Lemma on_other (c1 c2 : Page.Container) (f : Modal → Modal) (p : Page.t) :
  c1 ≠ c2 →
  Page.containerToSelectedIds (Page.on c1 f p) !! c2
  = Page.containerToSelectedIds p !! c2
  ∧ Page.domOf (Page.on c1 f p) c2 = Page.domOf p c2.
Proof.
  intros Hne. unfold Page.on, Page.getSelectedSet.
  destruct (Page.containerToSelectedIds p !! c1); simpl.
  - rewrite lookup_insert_ne by done. split; [done|].
    by rewrite decide_False by congruence.
  - rewrite !lookup_insert_ne by done. split; [done|].
    by rewrite decide_False by congruence.
Qed.

Lemma on_other_selected (c1 c2 : Page.Container) (f : Modal → Modal)
    (p : Page.t) :
  c1 ≠ c2 → Page.selected c2 (Page.on c1 f p) = Page.selected c2 p.
Proof.
  intros Hne. unfold Page.selected, Page.getSelectedSet.
  destruct (on_other c1 c2 f p Hne) as [-> _].
  by destruct (Page.containerToSelectedIds p !! c2).
Qed.

(** On its own container a handler acts as on the dialog alone. *)
Lemma on_same (c : Page.Container) (f : Modal → Modal) (p : Page.t) :
  Page.modal c (Page.on c f p) = f (Page.modal c p).
Proof.
  unfold Page.modal, Page.selected, Page.on, Page.getSelectedSet.
  destruct (Page.containerToSelectedIds p !! c) eqn:E; simpl.
  - rewrite lookup_insert_eq, decide_True by done. simpl.
    by destruct (f _).
  - rewrite lookup_insert_eq, decide_True by done. simpl.
    by destruct (f _).
Qed.

(** C8: an add, a remove, a clear or an initialisation, and any other
    event, delivered to one container leaves the weak-map entry, the
    selected set and the DOM of every other container as they were. *)
Theorem other_container_keeps_its_selection
    (c1 c2 : Page.Container) (p : Page.t) (id : Z) (ids : list Z)
    (e : Event) :
  c1 ≠ c2 →
  Page.selected c2 (Page.addFishToSelected id c1 p) = Page.selected c2 p ∧
  Page.selected c2 (Page.removeFishFromSelected id c1 p)
  = Page.selected c2 p ∧
  Page.selected c2 (Page.clearAllSelected c1 p) = Page.selected c2 p ∧
  Page.selected c2 (Page.initializeSelectedFish ids c1 p)
  = Page.selected c2 p ∧
  Page.selected c2 (Page.step c1 p e) = Page.selected c2 p ∧
  Page.containerToSelectedIds (Page.step c1 p e) !! c2
  = Page.containerToSelectedIds p !! c2 ∧
  Page.domOf (Page.step c1 p e) c2 = Page.domOf p c2.
Proof.
  intros Hne.
  split_and!; try by apply on_other_selected.
  - by apply on_other.
  - by apply on_other.
Qed.

Lemma other_container_keeps_its_selection_witness :
  (1 ≠ 2)%positive ∧
  Page.selected 2%positive
    (Page.addFishToSelected 1 1%positive
       (Page.mk {[2%positive := [5]]}
          (λ _, renderForm [mkFish 1 1 10 "carp"; mkFish 5 2 40 "bass"])))
  = Page.selected 2%positive
      (Page.mk {[2%positive := [5]]}
         (λ _, renderForm [mkFish 1 1 10 "carp"; mkFish 5 2 40 "bass"])).
Proof.
  split; [discriminate|].
  apply (other_container_keeps_its_selection 1%positive 2%positive
           (Page.mk {[2%positive := [5]]}
              (λ _, renderForm [mkFish 1 1 10 "carp"; mkFish 5 2 40 "bass"]))
           1 [] ClearAll).
  discriminate.
Defined.

(** ** The filter *)

Lemma truthy_false (s : string) : negb (truthy s) = true ↔ s = "".
Proof. destruct s; simpl; split; intros; done. Qed.

Lemma truthy_toLowerCase (s : string) : truthy (toLowerCase s) = truthy s.
Proof. by destruct s. Qed.

Lemma isVisible_spec (term rar : string) (s : IdSet) (it : FishItem) :
  isVisible (toLowerCase term) rar s it = true ↔
  (includes (toLowerCase (name it)) (toLowerCase term) = true ∨ term = "") ∧
  (string_of_Z (rarity it) = rar ∨ rar = "") ∧
  fishId it ∉ s.
Proof.
  unfold isVisible.
  rewrite !andb_true_iff, !orb_true_iff, truthy_toLowerCase, !truthy_false.
  rewrite String.eqb_eq, negb_true_iff, has_false. tauto.
Qed.

Lemma filter_display_count (vis : FishItem → bool) (l : list FishItem) :
  length (List.filter vis l)
  = length (List.filter is_shown
              (map (λ item, set_display (negb (vis item)) item) l)).
Proof.
  induction l as [|x l IH]; simpl; [done|].
  unfold is_shown at 1. simpl. rewrite negb_involutive.
  destruct (vis x); simpl; by rewrite IH.
Qed.

Lemma filterFishOptions_shown (m : Modal) :
  shown_case_insensitive (filterFishOptions m).
Proof.
  unfold shown_case_insensitive, filterFishOptions. simpl. split.
  - apply List.Forall_forall. intros it' [it [<- _]]%in_map_iff.
    unfold is_shown. simpl. rewrite negb_involutive.
    apply isVisible_spec.
  - apply filter_display_count.
Qed.

(** C9, as the code has it: after the filter has run, a candidate item
    is shown if and only if its lowercased name contains the lowercased
    search term (or the term is empty), its rarity is the chosen one (or
    none is chosen) and its id is not in the selected set; the candidate
    count is the number of shown items. The same holds after a keystroke
    in the search box and after a change of the rarity filter. *)
Theorem filter_shows_matching_unselected (m : Modal) (s : string) :
  shown_case_insensitive (filterFishOptions m) ∧
  shown_case_insensitive (fishSearch_keyup s m) ∧
  shown_case_insensitive (rarityFilter_change s m).
Proof. split_and!; apply filterFishOptions_shown. Qed.

(** C9 fails as worded: the candidate named Carp is shown for the term
    carp, which its name does not contain as written. *)
Lemma filter_ignores_case_of_name :
  ¬ shown_as_specified
      (fishSearch_keyup "carp" (fresh [mkFish 1 1 10 "Carp"])).
Proof.
  intros [H _].
  assert (totalFishList
            (dom (fishSearch_keyup "carp" (fresh [mkFish 1 1 10 "Carp"])))
          = [mkFishItem 1 1 10 "Carp" false false]) as Hl
    by (vm_compute; reflexivity).
  rewrite Hl in H. apply Forall_inv in H. destruct H as [H _].
  destruct (H eq_refl) as [[Hc|Hc] _]; vm_compute in Hc; discriminate.
Qed.

(** ** Initialisation *)

Lemma add_internal_set (id : Z) (m : Modal) :
  selectedSet (_addFishToSelected_internal id m) = set_add id (selectedSet m).
Proof.
  unfold _addFishToSelected_internal, set_add.
  destruct (has (selectedSet m) id) eqn:E; [done|].
  by destruct (find_item id (totalFishList (dom m))).
Qed.

Lemma add_internal_fold_set (ids : list Z) (m : Modal) :
  selectedSet (fold_left (λ acc id, _addFishToSelected_internal id acc) ids m)
  = fold_left (λ s id, set_add id s) ids (selectedSet m).
Proof.
  revert m. induction ids as [|id ids IH]; intros m; simpl; [done|].
  by rewrite IH, add_internal_set.
Qed.

Lemma fold_set_add_NoDup (ids : list Z) (s : IdSet) :
  NoDup s → NoDup (fold_left (λ s id, set_add id s) ids s).
Proof.
  revert s. induction ids as [|id ids IH]; intros s H; simpl; [done|].
  by apply IH, set_add_NoDup.
Qed.

Lemma fold_set_add_elem (ids : list Z) (s : IdSet) (x : Z) :
  x ∈ fold_left (λ s id, set_add id s) ids s ↔ x ∈ s ∨ x ∈ ids.
Proof.
  revert s. induction ids as [|id ids IH]; intros s; simpl.
  - split; [by left|]. intros [?|?%elem_of_nil]; done.
  - rewrite IH, set_add_spec, elem_of_cons. tauto.
Qed.

Lemma initializeSelectedFish_set (ids : list Z) (m : Modal) :
  selectedSet (initializeSelectedFish ids m) = dedupe ids.
Proof.
  unfold initializeSelectedFish, dedupe.
  rewrite filterFishOptions_set, updateSelectedStats_set.
  by rewrite add_internal_fold_set.
Qed.

(** C10: whatever the dialog held before, after [initializeSelectedFish]
    the selected set is the given ids without their repetitions; the
    hidden input is its comma-joined rendering and reads back as that
    list, ids without a candidate item included; and each given id is
    rendered by one node if it has a candidate item and by none if it
    has not. *)
Theorem initialize_keeps_unknown_ids (ids : list Z) (m : Modal) :
  selectedSet (initializeSelectedFish ids m) = dedupe ids ∧
  NoDup (dedupe ids) ∧
  Forall (λ id, id ∈ dedupe ids) ids ∧
  Forall (λ id, id ∈ ids) (dedupe ids) ∧
  specific_fish_ids_input (dom (initializeSelectedFish ids m))
  = join "," (map string_of_Z (dedupe ids)) ∧
  parse_ids (specific_fish_ids_input (dom (initializeSelectedFish ids m)))
  = Some (dedupe ids) ∧
  Forall
    (λ id,
       rendered_count id (initializeSelectedFish ids m)
       = if in_catalog (totalFishList (dom (initializeSelectedFish ids m))) id
         then 1%nat else 0%nat)
    ids.
Proof.
  pose proof (initializeSelectedFish_Inv ids m) as H.
  pose proof (initializeSelectedFish_set ids m) as Hs.
  assert (∀ id, id ∈ dedupe ids ↔ id ∈ ids) as He.
  { intros id. unfold dedupe. rewrite fold_set_add_elem.
    split; [intros [?%elem_of_nil|?]; done|by right]. }
  split_and!.
  - done.
  - apply fold_set_add_NoDup. constructor.
  - apply Forall_forall. intros id Hid. by apply He.
  - apply Forall_forall. intros id Hid. by apply He.
  - by rewrite (inv_hidden _ H), Hs.
  - by rewrite (Inv_hidden_parses _ H), Hs.
  - apply Forall_forall. intros id Hid.
    destruct (Inv_one_to_one_known _ H) as (_ & Hc & _).
    apply Hc. rewrite Hs. by apply He.
Qed.

(** ** Submission *)

(** C3: when the six rarity weights, each parsed with [parseFloat] and
    counted as 0 if it is [NaN], add up to a sum that is off 1.0 by more
    than 1e-4, the submit handler shows the error in the alert of the
    form and returns: no request is issued, the selection is the one it
    was and the inputs of the form are the ones the user typed. *)
Theorem off_sum_is_rejected_before_any_request
    (parseFloat : string → float) (parseInt : string → option Z)
    (server : string → string → Payload → Response)
    (zoneId : option string) (form : ZoneForm) (m : Modal) :
  off_by_more_than_1e_4 (rarity_sum parseFloat form) = true →
  submit parseFloat parseInt server zoneId form m
  = (showFormError form rarity_error [], m, []) ∧
  (submit parseFloat parseInt server zoneId form m).2 = [] ∧
  (submit parseFloat parseInt server zoneId form m).1.2 = m ∧
  form_inputs (submit parseFloat parseInt server zoneId form m).1.1
  = form_inputs form ∧
  form_error_alert (submit parseFloat parseInt server zoneId form m).1.1
  = Some (rarity_error, []).
Proof.
  intros Hoff. unfold submit. rewrite Hoff. by split_and!.
Qed.

Lemma off_sum_is_rejected_before_any_request_witness :
  off_by_more_than_1e_4
    (rarity_sum parseFloat_demo (form_demo "0.5" "0.3" "0.15" "0.04" "" "x"))
  = true
  ∧ (submit parseFloat_demo parseInt_demo server_demo None
       (form_demo "0.5" "0.3" "0.15" "0.04" "" "x")
       (run (fresh [mkFish 1 1 10 "carp"]) [AddFish 1])).2 = [].
Proof.
  split; [reflexivity|].
  apply (off_sum_is_rejected_before_any_request parseFloat_demo parseInt_demo
           server_demo None (form_demo "0.5" "0.3" "0.15" "0.04" "" "x")
           (run (fresh [mkFish 1 1 10 "carp"]) [AddFish 1])).
  reflexivity.
Defined.

(** The default distribution passes the check and is sent. *)
Example default_distribution_is_sent :
  (submit parseFloat_demo parseInt_demo server_demo None
     (form_demo "0.5" "0.3" "0.15" "0.04" "0.01" "0")
     (run (fresh [mkFish 1 1 10 "carp"]) [AddFish 1])).2
  = [Fetch "POST" "/admin/api/zones"
       (mkPayload (Some 7) "lake" "" 0 10 true "" ""
          [0.5; 0.3; 0.15; 0.04; 0.01; 0]%float [1] false None);
     Reload].
Proof. vm_compute. reflexivity. Qed.

(** ** A session, step by step *)

(** The candidate list groups the pond by rarity. *)
Example pond_candidates :
  map fishId (totalFishList (dom (fresh pond))) = [1; 3; 2]
  ∧ map header_rarity (rarityHeaders (dom (fresh pond))) = [1; 3]
  ∧ totalFishCount (dom (fresh pond)) = 3%nat.
Proof. by vm_compute. Qed.

(** Two adds: set, hidden input, count, total and the candidates left. *)
Example pond_two_adds :
  selection (run (fresh pond) [AddFish 2; AddFish 1])
  = ([2; 1],
     [mkFishItem 2 3 250 "koi" false false;
      mkFishItem 1 1 10 "carp" false false],
     2%nat, 260, "2,1")
  ∧ totalFishCount (dom (run (fresh pond) [AddFish 2; AddFish 1])) = 1%nat.
Proof. by vm_compute. Qed.

(** A remove, then clear. *)
Example pond_remove_then_clear :
  selection (run (fresh pond) [AddFish 2; AddFish 1; RemoveFish 2])
  = ([1], [mkFishItem 1 1 10 "carp" false false], 1%nat, 10, "1")
  ∧ selection (run (fresh pond) [AddFish 2; AddFish 1; RemoveFish 2; ClearAll])
    = ([], [], 0%nat, 0, "").
Proof. by vm_compute. Qed.

(** An id the pond does not have stays in the set and in the hidden
    input, and is counted, without a node. *)
Example pond_unknown_id :
  selection (run (fresh pond) [Init [2; 99; 2]])
  = ([2; 99], [mkFishItem 2 3 250 "koi" false false], 2%nat, 250, "2,99").
Proof. by vm_compute. Qed.

(** The header of rarity 1 over its two candidates: one row clicked,
    then the other. *)
Example pond_header_states :
  option_map (λ h, (header_checked h, header_indeterminate h))
    (header_of 1 (dom (run (fresh pond) [ClickTotal 0])))
  = Some (false, true)
  ∧ option_map (λ h, (header_checked h, header_indeterminate h))
      (header_of 1 (dom (run (fresh pond) [ClickTotal 0; ClickTotal 1])))
    = Some (true, false)
  ∧ option_map (λ h, (header_checked h, header_indeterminate h))
      (header_of 1 (dom (run (fresh pond) [SelectAll 1; SelectAll 1])))
    = Some (false, false).
Proof. by vm_compute. Qed.

(** The search ignores the case of both the name and the term. *)
Example pond_search :
  map display_none
    (totalFishList (dom (run (fresh pond) [TypeSearch "PER"])))
  = [true; false; true]
  ∧ map display_none
      (totalFishList (dom (run (fresh pond) [PickRarity "3"])))
    = [true; true; false].
Proof. by vm_compute. Qed.

(** * Further properties of the selector *)

(** ** What the operations do to the set *)



Lemma addFishToSelected_set (id : Z) (m : Modal) :
  selectedSet (addFishToSelected id m) = set_add id (selectedSet m).
Proof.
  unfold addFishToSelected.
  by rewrite filterFishOptions_set, updateSelectedStats_set, add_internal_set.
Qed.

Lemma set_delete_absent (id : Z) (s : IdSet) :
  id ∉ s → set_delete id s = s.
Proof.
  intros H. apply filter_bool_id. intros y Hy.
  apply negb_true_iff, Z.eqb_neq. intros ->. done.
Qed.

Lemma removeFishFromSelected_set (id : Z) (m : Modal) :
  selectedSet (removeFishFromSelected id m) = set_delete id (selectedSet m).
Proof.
  unfold removeFishFromSelected.
  destruct (has (selectedSet m) id) eqn:E; simpl; [done|].
  apply has_false in E. symmetry. by apply set_delete_absent.
Qed.


Lemma Inv_nil_list (m : Modal) :
  Inv m → selectedSet m = [] → selectedFishList (dom m) = [].
Proof.
  intros [_ Hids _ _ _ _ _ _] Hs. unfold known_ids in Hids.
  rewrite Hs in Hids. simpl in Hids.
  by destruct (selectedFishList (dom m)).
Qed.

Lemma clear_fold_set (s : IdSet) (m : Modal) :
  NoDup s → selectedSet m = s →
  selectedSet (fold_left (λ acc id, removeFishFromSelected id acc) s m) = [].
Proof.
  revert m. induction s as [|a s IH]; intros m Hnd Hs; simpl; [done|].
  apply NoDup_cons in Hnd as [Ha Hnd].
  apply IH; [done|].
  rewrite removeFishFromSelected_set, Hs. unfold set_delete. simpl.
  rewrite Z.eqb_refl. simpl. by apply set_delete_absent.
Qed.

(** X1. The clear button empties the selection: in any state a dialog can
    be in, after [clearAllSelected] the set is empty, no node is rendered,
    the count and the total are 0 and the hidden input is the empty
    string. *)
Theorem clear_all_empties_the_selection
    (allFishData : list Fish) (es : list Event) :
  selection (clearAllSelected (run (fresh allFishData) es))
  = ([], [], 0%nat, 0, "").
Proof.
  pose proof (run_Inv _ es (fresh_Inv allFishData)) as H.
  pose proof (clearAllSelected_Inv _ H) as Hc.
  assert (selectedSet (clearAllSelected (run (fresh allFishData) es)) = [])
    as Hs by (apply clear_fold_set; [apply (inv_nodup _ H)|done]).
  pose proof (Inv_nil_list _ Hc Hs) as Hl.
  destruct Hc as [_ _ _ _ Hcount Htotal _ Hhidden].
  unfold selection. by rewrite Hcount, Htotal, Hhidden, Hs, Hl.
Qed.

Lemma remove_first_none {A : Type} (p : A → bool) (l : list A) :
  Forall (λ x, p x = false) l → remove_first p l = l.
Proof.
  induction 1 as [|x l Hx Hl IH]; simpl; [done|]. by rewrite Hx, IH.
Qed.





(** ** The filter, run twice *)

Lemma isVisible_set_display (t r : string) (s : IdSet) (b : bool)
    (it : FishItem) :
  isVisible t r s (set_display b it) = isVisible t r s it.
Proof. done. Qed.

(** X6. Running the filter twice is running it once: the filter reads
    names, rarities and ids, never the visibility it wrote. *)
Theorem filter_is_idempotent (m : Modal) :
  filterFishOptions (filterFishOptions m) = filterFishOptions m.
Proof.
  unfold filterFishOptions, with_dom, with_totalFishCount,
    with_totalFishList. simpl. f_equal. f_equal.
  - rewrite map_map. by apply map_ext.
  - induction (totalFishList (dom m)) as [|x l IH]; simpl; [done|].
    rewrite isVisible_set_display.
    destruct (isVisible _ _ _ x); simpl; by rewrite IH.
Qed.

(** ** Membership *)

(** X7. An add makes its id selected and a remove makes it unselected;
    neither changes whether any other id is selected. This holds in any
    state, whether or not the id has a candidate. *)
Theorem add_and_remove_change_one_membership (m : Modal) (id x : Z) :
  (x ∈ selectedSet (addFishToSelected id m) ↔ x ∈ selectedSet m ∨ x = id)
  ∧ (x ∈ selectedSet (removeFishFromSelected id m)
     ↔ x ∈ selectedSet m ∧ x ≠ id).
Proof.
  split.
  - rewrite addFishToSelected_set. apply set_add_spec.
  - rewrite removeFishFromSelected_set. apply set_delete_spec.
Qed.

Lemma add_fold_set (ids : list Z) (m : Modal) :
  selectedSet (fold_left (λ acc id, addFishToSelected id acc) ids m)
  = fold_left (λ s id, set_add id s) ids (selectedSet m).
Proof.
  revert m. induction ids as [|id ids IH]; intros m; simpl; [done|].
  by rewrite IH, addFishToSelected_set.
Qed.

Lemma remove_fold_set (ids : list Z) (m : Modal) :
  selectedSet (fold_left (λ acc id, removeFishFromSelected id acc) ids m)
  = fold_left (λ s id, set_delete id s) ids (selectedSet m).
Proof.
  revert m. induction ids as [|id ids IH]; intros m; simpl; [done|].
  by rewrite IH, removeFishFromSelected_set.
Qed.

Lemma fold_set_delete_elem (ids : list Z) (s : IdSet) (x : Z) :
  x ∈ fold_left (λ s id, set_delete id s) ids s ↔ x ∈ s ∧ x ∉ ids.
Proof.
  revert s. induction ids as [|id ids IH]; intros s; simpl.
  - split; [intros H; split; [done|apply not_elem_of_nil]|by intros [? _]].
  - rewrite IH, set_delete_spec, not_elem_of_cons. tauto.
Qed.

(** X8. The add button selects what is ticked: after it, an id is
    selected exactly when it was selected before or is the id of a
    candidate whose box is checked, shown or not. *)
Theorem add_button_selects_checked_candidates (m : Modal) (x : Z) :
  x ∈ selectedSet (addSelectedBtn_click m)
  ↔ x ∈ selectedSet m
    ∨ x ∈ map fishId (List.filter checked (totalFishList (dom m))).
Proof.
  unfold addSelectedBtn_click. rewrite add_fold_set.
  apply fold_set_add_elem.
Qed.

(** X9. The remove button drops what is ticked: after it, an id is
    selected exactly when it was selected before and is not the id of a
    checked node of the selected list; and, in any state a dialog can be
    in, no node with such an id is left in the selected list. *)
Theorem remove_button_drops_checked_nodes
    (allFishData : list Fish) (es : list Event) (x : Z) :
  (x ∈ selectedSet (removeSelectedBtn_click (run (fresh allFishData) es))
   ↔ x ∈ selectedSet (run (fresh allFishData) es)
     ∧ x ∉ map fishId
             (List.filter checked
                (selectedFishList (dom (run (fresh allFishData) es)))))
  ∧ Forall
      (λ node,
         fishId node
         ∉ map fishId
             (List.filter checked
                (selectedFishList (dom (run (fresh allFishData) es)))))
      (selectedFishList
         (dom (removeSelectedBtn_click (run (fresh allFishData) es)))).
Proof.
  set (m := run (fresh allFishData) es).
  pose proof (run_Inv _ es (fresh_Inv allFishData)) as H. fold m in H.
  assert (∀ y, y ∈ selectedSet (removeSelectedBtn_click m)
               ↔ y ∈ selectedSet m
                 ∧ y ∉ map fishId
                         (List.filter checked (selectedFishList (dom m))))
    as Hset.
  { intros y. unfold removeSelectedBtn_click. rewrite remove_fold_set.
    apply fold_set_delete_elem. }
  split; [apply Hset|].
  assert (Inv (removeSelectedBtn_click m)) as Hr.
  { unfold removeSelectedBtn_click.
    by apply fold_Inv, H; apply removeFishFromSelected_Inv. }
  destruct (Inv_one_to_one_known _ Hr) as (_ & _ & Hin).
  apply Forall_forall. intros node Hnode.
  apply Hin in Hnode. by apply Hset in Hnode as [_ ?].
Qed.

(** ** Check boxes *)

Lemma boxes_filterFishOptions (m : Modal) :
  candidate_boxes (filterFishOptions m) = candidate_boxes m.
Proof.
  unfold candidate_boxes, filterFishOptions. simpl.
  rewrite map_map. by apply map_ext.
Qed.

Lemma boxes_addFishToSelected (id : Z) (m : Modal) :
  candidate_boxes (addFishToSelected id m) = candidate_boxes m.
Proof.
  unfold addFishToSelected. rewrite boxes_filterFishOptions.
  unfold candidate_boxes, _addFishToSelected_internal. simpl.
  destruct (has (selectedSet m) id); [done|].
  by destruct (find_item id (totalFishList (dom m))).
Qed.

Lemma boxes_removeFishFromSelected (id : Z) (m : Modal) :
  candidate_boxes (removeFishFromSelected id m) = candidate_boxes m.
Proof.
  unfold removeFishFromSelected.
  destruct (has (selectedSet m) id); simpl; [|done].
  by rewrite boxes_filterFishOptions.
Qed.

Lemma boxes_fold (f : Z → Modal → Modal) (ids : list Z) (m : Modal) :
  (∀ id m, candidate_boxes (f id m) = candidate_boxes m) →
  candidate_boxes (fold_left (λ acc id, f id acc) ids m) = candidate_boxes m.
Proof.
  intros Hf. revert m. induction ids as [|id ids IH]; intros m; simpl;
    [done|]. by rewrite IH, Hf.
Qed.

(** X10. Selecting never unticks: an add, a remove, the clear button,
    the add and remove buttons and the filter leave the check box of
    every candidate as it was (a candidate added while ticked is still
    ticked when it comes back); only an initialisation unticks them,
    all. *)
Theorem selection_keeps_candidate_boxes (m : Modal) (id : Z) (ids : list Z) :
  candidate_boxes (addFishToSelected id m) = candidate_boxes m
  ∧ candidate_boxes (removeFishFromSelected id m) = candidate_boxes m
  ∧ candidate_boxes (clearAllSelected m) = candidate_boxes m
  ∧ candidate_boxes (addSelectedBtn_click m) = candidate_boxes m
  ∧ candidate_boxes (removeSelectedBtn_click m) = candidate_boxes m
  ∧ candidate_boxes (filterFishOptions m) = candidate_boxes m
  ∧ Forall (λ b, b = false) (candidate_boxes (initializeSelectedFish ids m)).
Proof.
  split_and!.
  - apply boxes_addFishToSelected.
  - apply boxes_removeFishFromSelected.
  - apply boxes_fold, boxes_removeFishFromSelected.
  - apply boxes_fold, boxes_addFishToSelected.
  - apply boxes_fold, boxes_removeFishFromSelected.
  - apply boxes_filterFishOptions.
  - unfold initializeSelectedFish.
    rewrite boxes_filterFishOptions.
    assert (∀ l m0,
              candidate_boxes
                (fold_left (λ acc i, _addFishToSelected_internal i acc) l m0)
              = candidate_boxes m0) as Hfold.
    { induction l as [|i l IH]; intros m0; simpl; [done|].
      rewrite IH. unfold candidate_boxes, _addFishToSelected_internal.
      destruct (has (selectedSet m0) i); [done|].
      by destruct (find_item i (totalFishList (dom m0))). }
    unfold candidate_boxes at 1. simpl.
    change (map checked (totalFishList (dom ?x))) with (candidate_boxes x).
    rewrite Hfold. unfold candidate_boxes. simpl.
    rewrite map_map. apply List.Forall_forall.
    intros b [it [<- _]]%in_map_iff. done.
Qed.

(** ** The select-all box *)

Lemma visible_items_map_checked (r : Z) (b : bool) (l : list FishItem) :
  List.filter (λ it, of_rarity r it && is_shown it)
    (map (λ item, if of_rarity r item && is_shown item
                  then set_checked b item else item) l)
  = map (set_checked b)
      (List.filter (λ it, of_rarity r it && is_shown it) l).
Proof.
  induction l as [|x l IH]; simpl; [done|].
  destruct (of_rarity r x && is_shown x) eqn:E; simpl.
  - change (of_rarity r (set_checked b x) && is_shown (set_checked b x))
      with (of_rarity r x && is_shown x).
    rewrite E. simpl. by rewrite IH.
  - by rewrite E, IH.
Qed.

Lemma others_map_checked (r : Z) (b : bool) (l : list FishItem) :
  List.filter (λ it, negb (of_rarity r it && is_shown it))
    (map (λ item, if of_rarity r item && is_shown item
                  then set_checked b item else item) l)
  = List.filter (λ it, negb (of_rarity r it && is_shown it)) l.
Proof.
  induction l as [|x l IH]; simpl; [done|].
  destruct (of_rarity r x && is_shown x) eqn:E; simpl.
  - change (of_rarity r (set_checked b x) && is_shown (set_checked b x))
      with (of_rarity r x && is_shown x).
    rewrite E. simpl. by rewrite IH.
  - by rewrite E, IH.
Qed.

Lemma filter_checked_all (l : list FishItem) :
  List.filter checked (map (set_checked true) l) = map (set_checked true) l.
Proof. induction l as [|x l IH]; simpl; [done|]. by rewrite IH. Qed.

Lemma filter_checked_none (l : list FishItem) :
  List.filter checked (map (set_checked false) l) = [].
Proof. induction l as [|x l IH]; simpl; done. Qed.

(** X12. Ticking or unticking the header of a rarity that has a shown
    candidate gives every shown candidate of that rarity the state of
    the header, leaves the header in the state the user gave it, never
    indeterminate, and leaves hidden candidates and the other rarities
    as they were. *)
Theorem select_all_sets_shown_candidates
    (r : Z) (m : Modal) (h : RarityHeader) :
  header_of r (dom m) = Some h →
  (0 < length (visible_items r (dom m)))%nat →
  header_of r (dom (rarity_select_all_change r m))
  = Some (mkRarityHeader (header_rarity h) (negb (header_checked h)) false)
  ∧ visible_items r (dom (rarity_select_all_change r m))
    = map (set_checked (negb (header_checked h))) (visible_items r (dom m))
  ∧ List.filter (λ it, negb (of_rarity r it && is_shown it))
      (totalFishList (dom (rarity_select_all_change r m)))
    = List.filter (λ it, negb (of_rarity r it && is_shown it))
        (totalFishList (dom m)).
Proof.
  intros Hh Hvis. unfold header_of in Hh.
  unfold rarity_select_all_change. rewrite Hh.
  set (b := negb (header_checked h)).
  assert (visible_items r
            (with_totalFishList
               (map (λ item, if of_rarity r item && is_shown item
                             then set_checked b item else item)
                  (totalFishList (dom m)))
               (with_rarityHeaders
                  (update_first (is_header r)
                     (λ h0, mkRarityHeader (header_rarity h0) b false)
                     (rarityHeaders (dom m)))
                  (dom m)))
          = map (set_checked b) (visible_items r (dom m))) as Hv
    by apply visible_items_map_checked.
  split_and!.
  - unfold header_of, updateRarityCheckboxState. cbn [dom with_dom].
    unfold checked_items. rewrite Hv.
    cbn [rarityHeaders with_rarityHeaders with_totalFishList].
    rewrite !find_update_first by done. rewrite Hh. simpl option_map.
    rewrite length_map. f_equal. f_equal.
    + apply Nat.ltb_lt in Hvis. rewrite Hvis. simpl fst.
      destruct b.
      * rewrite filter_checked_all, length_map. apply Nat.eqb_refl.
      * rewrite filter_checked_none. simpl. apply Nat.eqb_neq.
        apply Nat.ltb_lt in Hvis. lia.
    + apply Nat.ltb_lt in Hvis. rewrite Hvis. simpl snd.
      destruct b.
      * rewrite filter_checked_all, length_map.
        rewrite Nat.ltb_irrefl. apply andb_false_r.
      * by rewrite filter_checked_none.
  - cbn [dom with_dom]. apply Hv.
  - cbn [dom with_dom]. apply others_map_checked.
Qed.

Lemma select_all_sets_shown_candidates_witness :
  header_of 1 (dom (run (fresh pond) [ClickTotal 0]))
  = Some (mkRarityHeader 1 false true)
  ∧ (0 < length (visible_items 1 (dom (run (fresh pond) [ClickTotal 0]))))%nat
  ∧ header_of 1
      (dom (rarity_select_all_change 1 (run (fresh pond) [ClickTotal 0])))
    = Some (mkRarityHeader 1 true false).
Proof.
  split; [reflexivity|]. split; [vm_compute; lia|].
  apply (select_all_sets_shown_candidates 1
           (run (fresh pond) [ClickTotal 0]) (mkRarityHeader 1 false true)).
  - reflexivity.
  - vm_compute. lia.
Defined.

(** ** The candidate list [renderForm] builds *)

Lemma rarities_spec (r : Z) : In r rarities ↔ 1 ≤ r ≤ 10.
Proof. unfold rarities. simpl. lia. Qed.

Lemma rarities_sorted : StronglySorted Z.lt rarities.
Proof.
  unfold rarities.
  repeat (constructor; [|repeat constructor; lia]). constructor.
Qed.

Lemma populated_chunks (allFishData : list Fish) (rs : list Z) :
  flat_map (λ r, map candidate_node (fishByRarity allFishData r))
    (List.filter (λ r, (0 <? length (fishByRarity allFishData r))%nat) rs)
  = flat_map (λ r, map candidate_node (fishByRarity allFishData r)) rs.
Proof.
  induction rs as [|r rs IH]; simpl; [done|].
  destruct (0 <? length (fishByRarity allFishData r))%nat eqn:E; simpl.
  - by rewrite IH.
  - apply Nat.ltb_ge in E.
    destruct (fishByRarity allFishData r); [by rewrite IH|simpl in E; lia].
Qed.

Lemma renderForm_candidates (allFishData : list Fish) :
  totalFishList (renderForm allFishData)
  = flat_map (λ r, map candidate_node (fishByRarity allFishData r)) rarities.
Proof.
  unfold renderForm. cbn [totalFishList]. apply populated_chunks.
Qed.

Lemma chunks_of_rarity (allFishData : list Fish) (rs : list Z) (r : Z) :
  NoDup rs →
  List.filter (of_rarity r)
    (flat_map (λ q, map candidate_node (fishByRarity allFishData q)) rs)
  = if bool_decide (r ∈ rs)
    then map candidate_node (fishByRarity allFishData r) else [].
Proof.
  induction 1 as [|q rs Hq Hrs IH]; simpl; [done|].
  rewrite List.filter_app, IH.
  assert (∀ l, List.filter (of_rarity r)
                 (map candidate_node
                    (List.filter (λ f, fish_rarity f =? q) l))
               = if q =? r
                 then map candidate_node
                        (List.filter (λ f, fish_rarity f =? q) l)
                 else []) as Hchunk.
  { induction l as [|f l IHl]; simpl; [by destruct (q =? r)|].
    destruct (fish_rarity f =? q) eqn:E; simpl; [|done].
    unfold of_rarity at 1. simpl. apply Z.eqb_eq in E. rewrite E.
    destruct (q =? r); [by rewrite IHl|done]. }
  unfold fishByRarity at 1. rewrite Hchunk.
  destruct (q =? r) eqn:E.
  - apply Z.eqb_eq in E. subst q.
    rewrite bool_decide_eq_false_2 by done.
    rewrite bool_decide_eq_true_2 by left. by rewrite app_nil_r.
  - apply Z.eqb_neq in E. simpl.
    destruct (bool_decide (r ∈ rs)) eqn:D.
    + apply bool_decide_eq_true in D.
      by rewrite bool_decide_eq_true_2 by (by right).
    + apply bool_decide_eq_false in D.
      rewrite bool_decide_eq_false_2; [done|].
      intros [?|?]%elem_of_cons; congruence.
Qed.

Lemma chunks_sorted (allFishData : list Fish) (rs : list Z) :
  StronglySorted Z.lt rs →
  StronglySorted Z.le
    (map rarity
       (flat_map (λ q, map candidate_node (fishByRarity allFishData q)) rs))
  ∧ Forall (λ x, In x rs)
      (map rarity
         (flat_map (λ q, map candidate_node (fishByRarity allFishData q))
            rs)).
Proof.
  induction 1 as [|q rs Hrs IH Hlt]; simpl; [split; constructor|].
  destruct IH as [IHs IHin]. rewrite map_app.
  assert (Forall (λ x, x = q)
            (map rarity (map candidate_node (fishByRarity allFishData q))))
    as Hq.
  { apply List.Forall_forall. intros x [it [<- Hit]]%in_map_iff.
    apply in_map_iff in Hit as [f [<- Hf]]. simpl.
    unfold fishByRarity in Hf. apply filter_In in Hf as [_ Hf].
    by apply Z.eqb_eq. }
  split.
  - induction Hq as [|x l Hx Hl IHl]; simpl; [done|].
    constructor; [done|]. apply Forall_app. split.
    + eapply Forall_impl; [apply Hl|]. intros y ->. lia.
    + eapply Forall_impl; [apply IHin|]. intros y Hy. subst x.
      rewrite List.Forall_forall in Hlt. apply Hlt in Hy. lia.
  - apply Forall_app. split.
    + eapply Forall_impl; [apply Hq|]. intros y ->. by left.
    + eapply Forall_impl; [apply IHin|]. intros y Hy. by right.
Qed.

(** X13. The candidate list is the catalog sorted by rarity, stably,
    with the fish outside the rarities 1 to 10 dropped: its rarities
    never decrease, and the candidates of a rarity from 1 to 10 are the
    fish of that rarity in catalog order, while no candidate has any
    other rarity. *)
Theorem candidates_are_offered_fish_by_rarity
    (allFishData : list Fish) (r : Z) :
  StronglySorted Z.le (map rarity (totalFishList (renderForm allFishData)))
  ∧ List.filter (of_rarity r) (totalFishList (renderForm allFishData))
    = (if (1 <=? r) && (r <=? 10)
       then map candidate_node (fishByRarity allFishData r) else []).
Proof.
  rewrite renderForm_candidates. split.
  - apply chunks_sorted, rarities_sorted.
  - rewrite chunks_of_rarity.
    + destruct ((1 <=? r) && (r <=? 10)) eqn:E.
      * rewrite bool_decide_eq_true_2; [done|].
        apply list_elem_of_In, rarities_spec. lia.
      * rewrite bool_decide_eq_false_2; [done|].
        rewrite list_elem_of_In, rarities_spec. lia.
    + apply NoDup_ListNoDup. unfold rarities.
      repeat (constructor; [simpl; lia|]). constructor.
Qed.

(** ** What no event changes *)

Lemma header_rarity_update_first (p : RarityHeader → bool)
    (f : RarityHeader → RarityHeader) (l : list RarityHeader) :
  (∀ h, header_rarity (f h) = header_rarity h) →
  map header_rarity (update_first p f l) = map header_rarity l.
Proof.
  intros Hf. induction l as [|x l IH]; simpl; [done|].
  destruct (p x); simpl; [by rewrite Hf|by rewrite IH].
Qed.

Lemma skeleton_filterFishOptions (m : Modal) :
  skeleton (filterFishOptions m) = skeleton m.
Proof.
  unfold skeleton, filterFishOptions. simpl. f_equal.
  rewrite map_map. by apply map_ext.
Qed.

Lemma skeleton_updateSelectedStats (m : Modal) :
  skeleton (updateSelectedStats m) = skeleton m.
Proof. done. Qed.

Lemma skeleton_add_internal (id : Z) (m : Modal) :
  skeleton (_addFishToSelected_internal id m) = skeleton m.
Proof.
  unfold _addFishToSelected_internal.
  destruct (has (selectedSet m) id); [done|].
  by destruct (find_item id (totalFishList (dom m))).
Qed.

Lemma skeleton_addFishToSelected (id : Z) (m : Modal) :
  skeleton (addFishToSelected id m) = skeleton m.
Proof.
  unfold addFishToSelected.
  by rewrite skeleton_filterFishOptions, skeleton_updateSelectedStats,
    skeleton_add_internal.
Qed.

Lemma skeleton_removeFishFromSelected (id : Z) (m : Modal) :
  skeleton (removeFishFromSelected id m) = skeleton m.
Proof.
  unfold removeFishFromSelected.
  destruct (has (selectedSet m) id); simpl; [|done].
  by rewrite skeleton_filterFishOptions.
Qed.

Lemma skeleton_fold (f : Z → Modal → Modal) (ids : list Z) (m : Modal) :
  (∀ id m, skeleton (f id m) = skeleton m) →
  skeleton (fold_left (λ acc id, f id acc) ids m) = skeleton m.
Proof.
  intros Hf. revert m. induction ids as [|id ids IH]; intros m; simpl;
    [done|]. by rewrite IH, Hf.
Qed.

Lemma skeleton_updateRarityCheckboxState (r : Z) (m : Modal) (d : Dom) :
  skeleton (with_dom (updateRarityCheckboxState r d) m)
  = skeleton (with_dom d m).
Proof.
  unfold skeleton, updateRarityCheckboxState. simpl. f_equal.
  by apply header_rarity_update_first.
Qed.

Lemma skeleton_step (m : Modal) (e : Event) : skeleton (step m e) = skeleton m.
Proof.
  destruct e; simpl.
  - apply skeleton_addFishToSelected.
  - apply skeleton_removeFishFromSelected.
  - apply skeleton_fold, skeleton_removeFishFromSelected.
  - unfold initializeSelectedFish.
    rewrite skeleton_filterFishOptions, skeleton_updateSelectedStats.
    rewrite (skeleton_fold (λ id acc, _addFishToSelected_internal id acc))
      by apply skeleton_add_internal.
    unfold skeleton. simpl. rewrite !map_map. f_equal.
  - apply skeleton_fold, skeleton_addFishToSelected.
  - apply skeleton_fold, skeleton_removeFishFromSelected.
  - unfold fishSearch_keyup. by rewrite skeleton_filterFishOptions.
  - unfold rarityFilter_change. by rewrite skeleton_filterFishOptions.
  - unfold toggleFishSelection_total.
    destruct (totalFishList (dom m) !! i); [|done].
    rewrite skeleton_updateRarityCheckboxState.
    unfold skeleton. simpl. by rewrite item_data_toggle_at.
  - unfold toggleFishSelection_selected.
    destruct (selectedFishList (dom m) !! i); [|done].
    by rewrite skeleton_updateRarityCheckboxState.
  - unfold skeleton. simpl. by rewrite item_data_toggle_at.
  - done.
  - unfold handleFishDblClick.
    destruct (totalFishList (dom m) !! i); [|done].
    apply skeleton_addFishToSelected.
  - unfold selected_dblclick.
    destruct (selectedFishList (dom m) !! i); [|done].
    apply skeleton_removeFishFromSelected.
  - unfold rarity_select_all_change.
    destruct (find (is_header r) (rarityHeaders (dom m))); [|done].
    rewrite skeleton_updateRarityCheckboxState.
    unfold skeleton. simpl. f_equal.
    + by apply header_rarity_update_first.
    + rewrite map_map. apply map_ext. intros it.
      by destruct (of_rarity r it && is_shown it).
Qed.

Lemma skeleton_run (m : Modal) (es : list Event) :
  skeleton (run m es) = skeleton m.
Proof.
  unfold run. revert m. induction es as [|e es IH]; intros m; simpl;
    [done|]. by rewrite IH, skeleton_step.
Qed.

Lemma skeleton_reachable (allFishData : list Fish) (es : list Event) :
  skeleton (run (fresh allFishData) es)
  = skeleton (mkModal [] (renderForm allFishData)).
Proof.
  rewrite skeleton_run. unfold fresh, setupFishSelection.
  apply skeleton_filterFishOptions.
Qed.

(** X14. No event of the dialog adds, removes, reorders or rewrites a
    candidate or a header: after any sequence of events the headers and
    the data of the candidates are the ones [renderForm] produced. Only
    visibility and check marks change. *)
Theorem events_keep_candidates_and_headers
    (allFishData : list Fish) (es : list Event) :
  map header_rarity (rarityHeaders (dom (run (fresh allFishData) es)))
  = map header_rarity (rarityHeaders (renderForm allFishData))
  ∧ map item_data (totalFishList (dom (run (fresh allFishData) es)))
    = map item_data (totalFishList (renderForm allFishData)).
Proof.
  pose proof (f_equal fst (skeleton_reachable allFishData es)) as Hh.
  pose proof (f_equal snd (skeleton_reachable allFishData es)) as Hc.
  unfold skeleton in Hh, Hc. cbn [fst snd dom] in Hh, Hc. by split.
Qed.

(** ** Headers and candidates *)

Lemma header_of_is_Some (r : Z) (d : Dom) :
  is_Some (header_of r d) ↔ In r (map header_rarity (rarityHeaders d)).
Proof.
  unfold header_of. induction (rarityHeaders d) as [|h l IH]; simpl.
  - split; [by intros [? ?]|done].
  - unfold is_header at 1. destruct (header_rarity h =? r) eqn:E.
    + apply Z.eqb_eq in E. split; [by left|by eexists].
    + apply Z.eqb_neq in E. rewrite IH. split; [by right|].
      intros [?|?]; [congruence|done].
Qed.

Lemma rarity_of_data (l : list FishItem) :
  map rarity l = map (λ d : ItemData, d.1.1.2) (map item_data l).
Proof. rewrite map_map. by apply map_ext. Qed.

Lemma renderForm_headers (allFishData : list Fish) :
  map header_rarity (rarityHeaders (renderForm allFishData))
  = populated allFishData.
Proof.
  unfold renderForm, populated. cbn [rarityHeaders].
  rewrite map_map. simpl header_rarity. apply map_id.
Qed.

Lemma renderForm_rarities (allFishData : list Fish) (q : Z) :
  In q (map rarity (totalFishList (renderForm allFishData)))
  ↔ In q (populated allFishData).
Proof.
  unfold renderForm. cbn [totalFishList]. fold (populated allFishData).
  rewrite in_map_iff. split.
  - intros (it & <- & Hit). apply in_flat_map in Hit as (r & Hr & Hit).
    apply in_map_iff in Hit as (f & <- & Hf). simpl.
    unfold fishByRarity in Hf. apply filter_In in Hf as [_ Hf].
    apply Z.eqb_eq in Hf. by rewrite Hf.
  - intros Hq. pose proof Hq as Hq'. unfold populated in Hq'.
    apply filter_In in Hq' as [_ Hlen]. apply Nat.ltb_lt in Hlen.
    destruct (fishByRarity allFishData q) as [|f l] eqn:E;
      [simpl in Hlen; lia|].
    assert (In f (fishByRarity allFishData q)) as Hf by (rewrite E; by left).
    exists (candidate_node f). split.
    + simpl. unfold fishByRarity in Hf. apply filter_In in Hf as [_ Hf].
      by apply Z.eqb_eq.
    + apply in_flat_map. exists q. split; [done|]. by apply in_map.
Qed.

(** X15. In any state a dialog can be in, every candidate row has the
    header of its rarity, no two headers share a rarity, and every
    header has at least one candidate row: a click on a row always finds
    the header it has to update. *)
Theorem every_candidate_has_its_header
    (allFishData : list Fish) (es : list Event) :
  Forall (λ it, is_Some (header_of (rarity it)
                           (dom (run (fresh allFishData) es))))
    (totalFishList (dom (run (fresh allFishData) es)))
  ∧ NoDup (map header_rarity
             (rarityHeaders (dom (run (fresh allFishData) es))))
  ∧ Forall
      (λ h, existsb (of_rarity (header_rarity h))
              (totalFishList (dom (run (fresh allFishData) es)))
            = true)
      (rarityHeaders (dom (run (fresh allFishData) es))).
Proof.
  pose proof (f_equal fst (skeleton_reachable allFishData es)) as Hh.
  pose proof (f_equal snd (skeleton_reachable allFishData es)) as Hc.
  unfold skeleton in Hh, Hc. cbn [fst snd dom] in Hh, Hc.
  set (m := run (fresh allFishData) es) in *.
  assert (map rarity (totalFishList (dom m))
          = map rarity (totalFishList (renderForm allFishData))) as Hr
    by (by rewrite !rarity_of_data, Hc).
  rewrite renderForm_headers in Hh.
  split_and!.
  - apply List.Forall_forall. intros it Hit.
    apply header_of_is_Some. rewrite Hh.
    apply renderForm_rarities. rewrite <- Hr. by apply in_map.
  - rewrite Hh. apply NoDup_ListNoDup, List.NoDup_filter.
    unfold rarities. repeat (constructor; [simpl; lia|]). constructor.
  - apply List.Forall_forall. intros h Hhd.
    assert (In (header_rarity h) (map rarity (totalFishList (dom m))))
      as Hin.
    { rewrite Hr. apply renderForm_rarities. rewrite <- Hh.
      by apply in_map. }
    apply in_map_iff in Hin as (it & Hit & Hin).
    apply existsb_exists. exists it. split; [done|].
    unfold of_rarity. by apply Z.eqb_eq.
Qed.

(** ** The weak map *)

Lemma on_map (c : Page.Container) (f : Modal → Modal) (p : Page.t) :
  Page.containerToSelectedIds (Page.on c f p)
  = <[c := selectedSet (f (Page.modal c p))]> (Page.containerToSelectedIds p).
Proof.
  unfold Page.on, Page.modal, Page.selected, Page.getSelectedSet.
  destruct (Page.containerToSelectedIds p !! c); simpl; [done|].
  by rewrite insert_insert_eq.
Qed.

Lemma on_dom (c c' : Page.Container) (f : Modal → Modal) (p : Page.t) :
  Page.domOf (Page.on c f p) c'
  = if decide (c' = c) then dom (f (Page.modal c p)) else Page.domOf p c'.
Proof.
  unfold Page.on, Page.modal, Page.selected, Page.getSelectedSet.
  by destruct (Page.containerToSelectedIds p !! c).
Qed.

Lemma modal_on_other (c1 c2 : Page.Container) (f : Modal → Modal)
    (p : Page.t) :
  c1 ≠ c2 → Page.modal c2 (Page.on c1 f p) = Page.modal c2 p.
Proof.
  intros Hne. unfold Page.modal.
  rewrite on_other_selected by done.
  by destruct (on_other c1 c2 f p Hne) as [_ ->].
Qed.

(** X16. [getSelectedSet] creates the set of a container once: a second
    access returns the same set and leaves the page as the first access
    left it, and an access never touches the entry of another
    container. *)
Theorem getSelectedSet_creates_once
    (c c' : Page.Container) (p : Page.t) :
  Page.getSelectedSet c (Page.getSelectedSet c p).2
  = Page.getSelectedSet c p
  ∧ Page.containerToSelectedIds (Page.getSelectedSet c p).2 !! c
    = Some (Page.getSelectedSet c p).1
  ∧ (c ≠ c' →
     Page.containerToSelectedIds (Page.getSelectedSet c p).2 !! c'
     = Page.containerToSelectedIds p !! c').
Proof.
  unfold Page.getSelectedSet.
  destruct (Page.containerToSelectedIds p !! c) eqn:E; simpl.
  - rewrite E. by split_and!.
  - rewrite lookup_insert_eq. split_and!; [done|done|].
    intros Hne. by rewrite lookup_insert_ne.
Qed.

(** X17. Events delivered to two different dialogs commute: whichever
    comes first, the weak map and the DOM of every container end up the
    same. *)
Theorem events_of_two_dialogs_commute
    (c1 c2 : Page.Container) (e1 e2 : Event) (p : Page.t) :
  c1 ≠ c2 →
  Page.containerToSelectedIds (Page.step c2 (Page.step c1 p e1) e2)
  = Page.containerToSelectedIds (Page.step c1 (Page.step c2 p e2) e1)
  ∧ ∀ c, Page.domOf (Page.step c2 (Page.step c1 p e1) e2) c
         = Page.domOf (Page.step c1 (Page.step c2 p e2) e1) c.
Proof.
  intros Hne. unfold Page.step.
  split.
  - rewrite !on_map.
    rewrite (modal_on_other c1 c2) by done.
    rewrite (modal_on_other c2 c1) by done.
    by apply insert_insert_ne.
  - intros c. rewrite !on_dom.
    rewrite (modal_on_other c1 c2) by done.
    rewrite (modal_on_other c2 c1) by done.
    destruct (decide (c = c2)), (decide (c = c1)); congruence.
Qed.

Lemma events_of_two_dialogs_commute_witness :
  (1 ≠ 2)%positive ∧
  Page.containerToSelectedIds
    (Page.step 2%positive
       (Page.step 1%positive (Page.mk ∅ (λ _, dom (fresh pond))) (AddFish 1))
       (AddFish 2))
  = Page.containerToSelectedIds
      (Page.step 1%positive
         (Page.step 2%positive (Page.mk ∅ (λ _, dom (fresh pond)))
            (AddFish 2))
         (AddFish 1)).
Proof.
  split; [discriminate|].
  apply (events_of_two_dialogs_commute 1%positive 2%positive
           (AddFish 1) (AddFish 2) (Page.mk ∅ (λ _, dom (fresh pond)))).
  discriminate.
Defined.

(** ** Opening a dialog *)

Lemma opened_modal
    (parseInt : string → option Z) (allFishData : list Fish)
    (zonesData : list Zone) (zoneId : option string)
    (c : Page.Container) (s : Screen) :
  Page.modal c
    (page (shown_modal c
             (show_modal parseInt allFishData zonesData zoneId c s)))
  = initializeSelectedFish
      (match currentZone
               (show_modal parseInt allFishData zonesData zoneId c s) c with
       | Some zone => default [] (specific_fish_ids zone)
       | None => []
       end)
      (fresh allFishData).
Proof.
  unfold shown_modal, Page.initializeSelectedFish. cbn [page].
  rewrite on_same.
  set (ids := match currentZone _ c with
              | Some zone => default [] (specific_fish_ids zone)
              | None => []
              end).
  unfold show_modal. cbn [page]. rewrite on_same.
  apply (initialize_forgets_previous_session
           (selectedSet (Page.modal c (page s)))).
Qed.

(** X18. Opening a dialog, whatever the page went through before and
    whatever set an earlier session left in the weak map, gives the
    dialog a first opening gives: the candidates freshly rendered and
    the ids of the zone initialised, so that the set is those ids
    without repetitions. Opened without a zone the dialog has an empty
    set. Closing a dialog leaves its set in the weak map. *)
Theorem opening_forgets_previous_session
    (parseInt : string → option Z) (allFishData : list Fish)
    (zonesData : list Zone) (zoneId : option string)
    (c : Page.Container) (s : Screen) :
  Page.modal c
    (page (shown_modal c
             (show_modal parseInt allFishData zonesData zoneId c s)))
  = initializeSelectedFish
      (match currentZone
               (show_modal parseInt allFishData zonesData zoneId c s) c with
       | Some zone => default [] (specific_fish_ids zone)
       | None => []
       end)
      (fresh allFishData)
  ∧ Page.selected c
      (page (shown_modal c
               (show_modal parseInt allFishData zonesData zoneId c s)))
    = dedupe
        (match currentZone
                 (show_modal parseInt allFishData zonesData zoneId c s) c with
         | Some zone => default [] (specific_fish_ids zone)
         | None => []
         end)
  ∧ Page.selected c
      (page (shown_modal c
               (show_modal parseInt allFishData zonesData None c s)))
    = []
  ∧ Page.selected c (page (hidden_modal c s)) = Page.selected c (page s).
Proof.
  split_and!.
  - apply opened_modal.
  - change (Page.selected c ?p) with (selectedSet (Page.modal c p)).
    rewrite opened_modal. apply initializeSelectedFish_set.
  - change (Page.selected c ?p) with (selectedSet (Page.modal c p)).
    rewrite opened_modal, initializeSelectedFish_set.
    unfold show_modal. cbn [currentZone].
    by rewrite decide_True by done.
  - unfold hidden_modal, Page.selected, Page.getSelectedSet. simpl.
    by destruct (Page.containerToSelectedIds (page s) !! c).
Qed.

(** The edit button of zone 4 opens the dialog on its three fish, after
    a session that had left fish 9 selected. *)
Example opening_zone_four :
  Page.selected 1%positive
    (page (shown_modal 1%positive
             (show_modal parseInt_demo pond
                [mkZone 3 None; mkZone 4 (Some [2; 1; 2; 77])]
                (Some "4") 1%positive
                (mkScreen (Page.mk {[1%positive := [9]]} (λ _, empty_body))
                   (λ _, None)))))
  = [2; 1; 77].
Proof. by vm_compute. Qed.

(** ** The form *)

Lemma float_or_not_nan (x : float) : is_nan (float_or x 0%float) = false.
Proof.
  unfold float_or. destruct (is_nan x) eqn:E; simpl; [reflexivity|].
  destruct (is_zero x); [reflexivity|exact E].
Qed.

(** X19. The rarity distribution the handler builds always has six
    entries and none of them is [NaN], whatever the inputs hold and
    whatever [parseFloat] makes of them. *)
Theorem rarity_distribution_has_six_numbers
    (parseFloat : string → float) (form : ZoneForm) :
  length (rarityDistribution parseFloat form) = 6%nat
  ∧ Forall (λ x, is_nan x = false) (rarityDistribution parseFloat form).
Proof.
  split; [done|].
  unfold rarityDistribution. simpl.
  repeat (constructor; [apply float_or_not_nan|]). constructor.
Qed.

Lemma int_or_nonzero (x : option Z) (d : Z) : d ≠ 0 → int_or x d ≠ 0.
Proof.
  intros Hd. unfold int_or. destruct x as [n|]; [|done].
  destruct (n =? 0) eqn:E; [done|]. by apply Z.eqb_neq.
Qed.

(** X22. Whatever a submission sends is sanitised: the ids are the
    selected set of the dialog, the distribution has six entries, the
    fishing cost is never 0, the pass item is absent unless a pass is
    required and is never 0, and the time window is empty unless the
    limit switch is on. *)
Theorem sent_payload_is_sanitised
    (parseFloat : string → float) (parseInt : string → option Z)
    (server : string → string → Payload → Response)
    (zoneId : option string) (form : ZoneForm) (m : Modal) :
  Forall
    (λ body,
       payload_specific_fish_ids body = selectedSet m
       ∧ length (payload_rarity_distribution body) = 6%nat
       ∧ payload_fishing_cost body ≠ 0
       ∧ payload_required_item_id body ≠ Some 0
       ∧ (requires_pass form = false → payload_required_item_id body = None)
       ∧ (limit_time form = false →
          payload_available_from body = ""
          ∧ payload_available_until body = ""))
    (sent_payloads (submit parseFloat parseInt server zoneId form m).2).
Proof.
  unfold submit.
  destruct (off_by_more_than_1e_4 (rarity_sum parseFloat form));
    [constructor|].
  match goal with
  | |- context [ok (server ?a ?b ?c)] =>
      set (method := a); set (url := b); set (body := c)
  end.
  assert (payload_specific_fish_ids body = selectedSet m
          ∧ length (payload_rarity_distribution body) = 6%nat
          ∧ payload_fishing_cost body ≠ 0
          ∧ payload_required_item_id body ≠ Some 0
          ∧ (requires_pass form = false →
             payload_required_item_id body = None)
          ∧ (limit_time form = false →
             payload_available_from body = ""
             ∧ payload_available_until body = "")) as Hbody.
  { subst body. cbn [payload_specific_fish_ids payload_rarity_distribution
                     payload_fishing_cost payload_required_item_id
                     payload_available_from payload_available_until].
    split_and!.
    - done.
    - done.
    - by apply int_or_nonzero.
    - destruct (requires_pass form); [|done].
      destruct (parseInt (input_required_item_id form)) as [n|]; [|done].
      destruct (n =? 0) eqn:E; [done|].
      apply Z.eqb_neq in E. congruence.
    - by intros ->.
    - by intros ->. }
  destruct (ok (server method url body)); simpl;
    (constructor; [exact Hbody|constructor]).
Qed.

(** ** Single and double clicks *)

Lemma run_app (m : Modal) (es1 es2 : list Event) :
  run m (es1 ++ es2) = run (run m es1) es2.
Proof. unfold run. apply fold_left_app. Qed.

Lemma pointer_step_run (c : Clicking) (p : Pointer) :
  ∃ es, dialog (pointer_step c p) = run (dialog c) es.
Proof.
  destruct p as [i| |e]; simpl.
  - unfold handleFishClick. destruct (clickTimer c).
    + by exists [DblClickTotal i].
    + by exists [].
  - unfold timer_fires. destruct (clickTimer c) as [i|].
    + by exists [ClickTotal i].
    + by exists [].
  - by exists [e].
Qed.

Lemma pointer_fold_run (ps : list Pointer) (c : Clicking) :
  ∃ es, dialog (fold_left pointer_step ps c) = run (dialog c) es.
Proof.
  revert c. induction ps as [|p ps IH]; intros c; simpl.
  - by exists [].
  - destruct (pointer_step_run c p) as [es1 H1].
    destruct (IH (pointer_step c p)) as [es2 H2].
    exists (es1 ++ es2). by rewrite run_app, <- H1.
Qed.

(** X23. The click timer adds no behaviour of its own: whatever clicks,
    elapsed delays and other events a dialog receives, its state is one
    the events alone reach, so set and rendered list stay in
    correspondence. Two clicks with no delay elapsed between them add the
    fish of the second row, leave no timer pending and toggle no box;
    the third click starts over. *)
Theorem click_timer_adds_no_state
    (allFishData : list Fish) (ps : list Pointer) (m : Modal) (i j k : nat) :
  (∃ es, dialog (fold_left pointer_step ps
                   (mkClicking (fresh allFishData) None))
         = run (fresh allFishData) es)
  ∧ one_to_one_known
      (dialog (fold_left pointer_step ps
                 (mkClicking (fresh allFishData) None)))
  ∧ handleFishClick j (handleFishClick i (mkClicking m None))
    = mkClicking (handleFishDblClick j m) None
  ∧ candidate_boxes
      (dialog (handleFishClick j (handleFishClick i (mkClicking m None))))
    = candidate_boxes m
  ∧ clickTimer
      (handleFishClick k
         (handleFishClick j (handleFishClick i (mkClicking m None))))
    = Some k.
Proof.
  destruct (pointer_fold_run ps (mkClicking (fresh allFishData) None))
    as [es Hes].
  split_and!.
  - by exists es.
  - rewrite Hes. apply Inv_one_to_one_known, run_Inv, fresh_Inv.
  - done.
  - simpl. unfold handleFishDblClick.
    destruct (totalFishList (dom m) !! j); [|done].
    apply boxes_addFishToSelected.
  - done.
Qed.

(** ** Dates *)

Lemma check_range (P : Z → bool) (lo hi : Z) :
  forallb (λ k, P (lo + Z.of_nat k)) (seq 0 (Z.to_nat (hi - lo))) = true →
  ∀ n, lo ≤ n < hi → P n = true.
Proof.
  intros H n Hn. rewrite forallb_forall in H.
  specialize (H (Z.to_nat (n - lo))).
  replace (lo + Z.of_nat (Z.to_nat (n - lo))) with n in H by lia.
  apply H. apply in_seq. lia.
Qed.

Lemma two_digits (n : Z) :
  0 ≤ n ≤ 99 → String.length (padStart 2 "0" (string_of_Z n)) = 2%nat.
Proof.
  intros Hn.
  apply Nat.eqb_eq.
  apply (check_range
           (λ n, Nat.eqb (String.length (padStart 2 "0" (string_of_Z n))) 2)
           0 100); [by vm_compute|lia].
Qed.

Lemma four_digits (n : Z) :
  1000 ≤ n ≤ 9999 → String.length (string_of_Z n) = 4%nat.
Proof.
  intros Hn.
  apply Nat.eqb_eq.
  apply (check_range (λ n, Nat.eqb (String.length (string_of_Z n)) 4)
           1000 10000); [by vm_compute|lia].
Qed.

(** X24. For a text that parses to a date with a four-digit year,
    [formatDateTimeForInput] gives the sixteen characters a
    [datetime-local] input takes: a year of four characters, then month,
    day, hours and minutes of two characters each, separated by [-],
    [-], [T] and [:], the month counted from 1. *)
Theorem date_is_formatted_for_the_input
    (parseDate : string → option LocalTime) (s : string) (d : LocalTime) :
  truthy s = true →
  parseDate s = Some d →
  1000 ≤ getFullYear d ≤ 9999 →
  0 ≤ getMonth d ≤ 11 →
  1 ≤ getDate d ≤ 31 →
  0 ≤ getHours d ≤ 23 →
  0 ≤ getMinutes d ≤ 59 →
  ∃ year month day hours minutes,
    formatDateTimeForInput parseDate (Some s)
    = year +:+ "-" +:+ month +:+ "-" +:+ day +:+ "T" +:+ hours +:+ ":"
      +:+ minutes
    ∧ String.length year = 4%nat
    ∧ String.length month = 2%nat
    ∧ String.length day = 2%nat
    ∧ String.length hours = 2%nat
    ∧ String.length minutes = 2%nat
    ∧ month = padStart 2 "0" (string_of_Z (getMonth d + 1)).
Proof.
  intros Hs Hd Hy Hmo Hda Hh Hmi.
  unfold formatDateTimeForInput. rewrite Hs, Hd.
  eexists _, _, _, _, _. split; [reflexivity|].
  split_and!.
  - by apply four_digits.
  - apply two_digits. lia.
  - apply two_digits. lia.
  - apply two_digits. lia.
  - apply two_digits. lia.
  - done.
Qed.

Lemma date_is_formatted_for_the_input_witness :
  truthy "2025-03-09T07:05:00" = true
  ∧ parseDate_demo "2025-03-09T07:05:00" = Some (mkLocalTime 2025 2 9 7 5)
  ∧ ∃ year month day hours minutes,
      formatDateTimeForInput parseDate_demo (Some "2025-03-09T07:05:00")
      = year +:+ "-" +:+ month +:+ "-" +:+ day +:+ "T" +:+ hours +:+ ":"
        +:+ minutes
      ∧ String.length year = 4%nat
      ∧ String.length month = 2%nat
      ∧ String.length day = 2%nat
      ∧ String.length hours = 2%nat
      ∧ String.length minutes = 2%nat
      ∧ month = padStart 2 "0" (string_of_Z (getMonth (mkLocalTime 2025 2 9 7 5) + 1)).
Proof.
  split; [reflexivity|]. split; [reflexivity|].
  apply (date_is_formatted_for_the_input parseDate_demo
           "2025-03-09T07:05:00" (mkLocalTime 2025 2 9 7 5));
    [reflexivity|reflexivity|simpl; lia..].
Defined.

(** The date of the example, as the input gets it. *)
Example date_formatted :
  formatDateTimeForInput parseDate_demo (Some "2025-03-09T07:05:00")
  = "2025-03-09T07:05"
  ∧ formatDateTimeForInput parseDate_demo (Some "soon") = ""
  ∧ formatDateTimeForInput parseDate_demo (Some "") = ""
  ∧ formatDateTimeForInput parseDate_demo None = "".
Proof. by vm_compute. Qed.

(** ** The padded distribution *)

Lemma pad_loop_spec (fuel : nat) (l : list float) :
  (6 - length l ≤ fuel)%nat →
  pad_loop fuel l = l ++ repeat 0%float (6 - length l).
Proof.
  revert l. induction fuel as [|k IH]; intros l Hl; simpl.
  - replace (6 - length l)%nat with 0%nat by lia. simpl.
    by rewrite app_nil_r.
  - destruct (length l <? 6)%nat eqn:E.
    + apply Nat.ltb_lt in E. rewrite IH.
      * rewrite length_app. simpl.
        replace (6 - length l)%nat with (S (6 - (length l + 1)))%nat by lia.
        simpl. by rewrite <- app_assoc.
      * rewrite length_app. simpl. lia.
    + apply Nat.ltb_ge in E.
      replace (6 - length l)%nat with 0%nat by lia. simpl.
      by rewrite app_nil_r.
Qed.

(** X25. The padding loop of the rarity inputs ends within six turns:
    with six turns or more it returns the configured weights followed by
    as many zeros as are missing to six, so a longer list is returned as
    it is, a missing one is replaced by the default distribution, and
    the six inputs always have a weight to show. *)
Theorem distribution_is_padded_to_six
    (fuel : nat) (configured : option (list float)) :
  (6 ≤ fuel)%nat →
  form_rarity_distribution fuel configured
  = default default_distribution configured
    ++ repeat 0%float (6 - length (default default_distribution configured))
  ∧ (6 ≤ length (form_rarity_distribution fuel configured))%nat.
Proof.
  intros Hfuel. unfold form_rarity_distribution.
  rewrite pad_loop_spec by lia. split; [done|].
  rewrite length_app, repeat_length. lia.
Qed.

Lemma distribution_is_padded_to_six_witness :
  (6 ≤ 6)%nat
  ∧ form_rarity_distribution 6 (Some [0.7; 0.3]%float)
    = default default_distribution (Some [0.7; 0.3]%float)
      ++ repeat 0%float
           (6 - length (default default_distribution
                          (Some [0.7; 0.3]%float))).
Proof.
  split; [lia|].
  apply (distribution_is_padded_to_six 6 (Some [0.7; 0.3]%float)). lia.
Defined.

(** ** Initialisation as a reset *)

Lemma lists_updateSelectedStats (m m' : Modal) :
  lists m = lists m' → updateSelectedStats m = updateSelectedStats m'.
Proof.
  unfold lists, updateSelectedStats. intros H.
  injection H as H1 H2 H3 H4 H5 H6. by rewrite H1, H2, H3, H4, H5, H6.
Qed.

Lemma lists_add_internal (id : Z) (m m' : Modal) :
  lists m = lists m' →
  lists (_addFishToSelected_internal id m)
  = lists (_addFishToSelected_internal id m').
Proof.
  unfold lists. intros H. injection H as H1 H2 H3 H4 H5 H6.
  unfold _addFishToSelected_internal. rewrite <- H1, <- H2.
  destruct (has (selectedSet m) id); simpl.
  - by rewrite H1, H2, H3, H4, H5, H6.
  - destruct (find_item id (totalFishList (dom m))); simpl;
      by rewrite H2, H3, H4, H5, H6.
Qed.

Lemma lists_add_internal_fold (ids : list Z) (m m' : Modal) :
  lists m = lists m' →
  lists (fold_left (λ acc id, _addFishToSelected_internal id acc) ids m)
  = lists (fold_left (λ acc id, _addFishToSelected_internal id acc) ids m').
Proof.
  revert m m'. induction ids as [|id ids IH]; intros m m' H; simpl; [done|].
  by apply IH, lists_add_internal.
Qed.

Lemma reset_of_rendered (m m' : Modal) :
  rendered m = rendered m' →
  lists (mkModal [] (reset_lists (dom m)))
  = lists (mkModal [] (reset_lists (dom m'))).
Proof.
  unfold rendered, skeleton, lists, reset_lists. simpl.
  intros H. injection H as Hh Ht Hs Hr. rewrite Hs, Hr.
  assert (∀ l, map (λ it, set_checked false (set_display false it)) l
               = map (λ d : ItemData,
                        mkFishItem d.1.1.1 d.1.1.2 d.1.2 d.2 false false)
                   (map item_data l)) as Ei
    by (intros l; rewrite map_map; by apply map_ext).
  assert (∀ l, map (λ h, mkRarityHeader (header_rarity h) false false) l
               = map (λ r, mkRarityHeader r false false)
                   (map header_rarity l)) as Eh
    by (intros l; rewrite map_map; by apply map_ext).
  by rewrite !Ei, !Eh, Hh, Ht.
Qed.

Lemma initialize_of_rendered (ids : list Z) (m m' : Modal) :
  rendered m = rendered m' →
  initializeSelectedFish ids m = initializeSelectedFish ids m'.
Proof.
  intros H. unfold initializeSelectedFish. f_equal.
  by apply lists_updateSelectedStats, lists_add_internal_fold,
    reset_of_rendered.
Qed.

Lemma rendered_filterFishOptions (m : Modal) :
  rendered (filterFishOptions m) = rendered m.
Proof. unfold rendered. by rewrite skeleton_filterFishOptions. Qed.

Lemma rendered_add_internal (id : Z) (m : Modal) :
  rendered (_addFishToSelected_internal id m) = rendered m.
Proof.
  unfold rendered. rewrite skeleton_add_internal.
  unfold _addFishToSelected_internal.
  destruct (has (selectedSet m) id); [done|].
  by destruct (find_item id (totalFishList (dom m))).
Qed.

Lemma rendered_addFishToSelected (id : Z) (m : Modal) :
  rendered (addFishToSelected id m) = rendered m.
Proof.
  unfold addFishToSelected.
  rewrite rendered_filterFishOptions. unfold rendered.
  rewrite skeleton_updateSelectedStats. simpl.
  apply rendered_add_internal.
Qed.

Lemma rendered_removeFishFromSelected (id : Z) (m : Modal) :
  rendered (removeFishFromSelected id m) = rendered m.
Proof.
  unfold removeFishFromSelected.
  destruct (has (selectedSet m) id); simpl; [|done].
  by rewrite rendered_filterFishOptions.
Qed.

Lemma rendered_fold (f : Z → Modal → Modal) (ids : list Z) (m : Modal) :
  (∀ id m, rendered (f id m) = rendered m) →
  rendered (fold_left (λ acc id, f id acc) ids m) = rendered m.
Proof.
  intros Hf. revert m. induction ids as [|id ids IH]; intros m; simpl;
    [done|]. by rewrite IH, Hf.
Qed.

Lemma rendered_initializeSelectedFish (ids : list Z) (m : Modal) :
  rendered (initializeSelectedFish ids m) = rendered m.
Proof.
  unfold initializeSelectedFish.
  rewrite rendered_filterFishOptions.
  transitivity
    (rendered (fold_left (λ acc id, _addFishToSelected_internal id acc) ids
                 (mkModal [] (reset_lists (dom m))))); [done|].
  rewrite (rendered_fold (λ id acc, _addFishToSelected_internal id acc))
    by apply rendered_add_internal.
  unfold rendered, skeleton. simpl. rewrite !map_map. done.
Qed.

(** X26. An initialisation is a full reset: its result depends on the
    candidates and headers as rendered and on the two filter inputs, and
    on nothing a dialog has accumulated. Initialising after any adds,
    removes, a clear or another initialisation gives the state
    initialising at once gives, and every header box comes out
    unchecked and determinate. *)
Theorem initialization_is_a_reset
    (ids ids' : list Z) (id : Z) (m : Modal) :
  initializeSelectedFish ids (initializeSelectedFish ids' m)
  = initializeSelectedFish ids m
  ∧ initializeSelectedFish ids (addFishToSelected id m)
    = initializeSelectedFish ids m
  ∧ initializeSelectedFish ids (removeFishFromSelected id m)
    = initializeSelectedFish ids m
  ∧ initializeSelectedFish ids (clearAllSelected m)
    = initializeSelectedFish ids m
  ∧ Forall (λ h, header_checked h = false ∧ header_indeterminate h = false)
      (rarityHeaders (dom (initializeSelectedFish ids m))).
Proof.
  split_and!.
  - apply initialize_of_rendered, rendered_initializeSelectedFish.
  - apply initialize_of_rendered, rendered_addFishToSelected.
  - apply initialize_of_rendered, rendered_removeFishFromSelected.
  - apply initialize_of_rendered.
    apply rendered_fold, rendered_removeFishFromSelected.
  - assert (∀ l m0,
              rarityHeaders
                (dom (fold_left
                        (λ acc i, _addFishToSelected_internal i acc) l m0))
              = rarityHeaders (dom m0)) as Hfold.
    { induction l as [|i l IH]; intros m0; simpl; [done|].
      rewrite IH. unfold _addFishToSelected_internal.
      destruct (has (selectedSet m0) i); [done|].
      by destruct (find_item i (totalFishList (dom m0))). }
    unfold initializeSelectedFish. simpl. rewrite Hfold. simpl.
    apply List.Forall_forall. intros h [h0 [<- _]]%in_map_iff. done.
Qed.

(** ** The time window *)

Lemma time_step_inv (form : ZoneForm) (e : TimeEdit) :
  (limit_time form = false →
   input_available_from form = "" ∧ input_available_until form = "") →
  limit_time (time_step form e) = false →
  input_available_from (time_step form e) = ""
  ∧ input_available_until (time_step form e) = "".
Proof.
  intros H. destruct e; simpl.
  - unfold applyTimeState. simpl.
    destruct (limit_time form); simpl; [done|discriminate].
  - destruct (limit_time form) eqn:E; simpl; [discriminate|]. by rewrite E.
  - destruct (limit_time form) eqn:E; simpl; [discriminate|]. by rewrite E.
Qed.

Lemma time_edited_inv (form : ZoneForm) (es : list TimeEdit) :
  limit_time (time_edited form es) = false →
  input_available_from (time_edited form es) = ""
  ∧ input_available_until (time_edited form es) = "".
Proof.
  unfold time_edited.
  assert (limit_time (applyTimeState form) = false →
          input_available_from (applyTimeState form) = ""
          ∧ input_available_until (applyTimeState form) = "") as H0.
  { unfold applyTimeState. destruct (limit_time form) eqn:E; simpl;
      [by rewrite E|done]. }
  revert H0. generalize (applyTimeState form) as f.
  induction es as [|e es IH]; intros f Hf; simpl; [done|].
  apply IH. by apply time_step_inv.
Qed.

(** X27. What is sent as time window is what the two inputs show: once
    [hookFormHandlers] has run, whatever the user flips and types, the
    inputs are empty while the switch is off (switching off erases the
    dates, and switching on again does not bring them back), so the
    window a submission sends is the content of the inputs. *)
Theorem time_window_sent_is_shown
    (parseFloat : string → float) (parseInt : string → option Z)
    (server : string → string → Payload → Response)
    (zoneId : option string) (form : ZoneForm) (es : list TimeEdit)
    (m : Modal) :
  Forall
    (λ body,
       payload_available_from body
       = input_available_from (time_edited form es)
       ∧ payload_available_until body
         = input_available_until (time_edited form es))
    (sent_payloads
       (submit parseFloat parseInt server zoneId (time_edited form es) m).2)
  ∧ input_available_from
      (time_step (time_step (time_edited form es) FlipLimit) FlipLimit)
    = (if limit_time (time_edited form es) then "" else
       input_available_from (time_edited form es)).
Proof.
  pose proof (time_edited_inv form es) as Hinv.
  set (f := time_edited form es) in *.
  split.
  - unfold submit.
    destruct (off_by_more_than_1e_4 (rarity_sum parseFloat f));
      [constructor|].
    match goal with
    | |- context [ok (server ?a ?b ?c)] =>
        set (method := a); set (url := b); set (body := c)
    end.
    assert (payload_available_from body = input_available_from f
            ∧ payload_available_until body = input_available_until f)
      as Hbody.
    { subst body. simpl. destruct (limit_time f) eqn:E; [done|].
      by destruct (Hinv eq_refl) as [-> ->]. }
    destruct (ok (server method url body)); simpl;
      (constructor; [exact Hbody|constructor]).
  - simpl. unfold applyTimeState. simpl.
    destruct (limit_time f) eqn:E; simpl; [done|].
    by destruct (Hinv eq_refl) as [-> _].
Qed.

(** ** Deleting a zone *)

(** X28. Deleting a zone touches no other card and asks first: the cards
    of the other zones are all kept, in their order; without the
    confirmation nothing is requested; and the card of the zone goes
    only after a confirmed request the server accepted, otherwise every
    card stays. *)
Theorem delete_zone_keeps_other_cards
    (confirmed : bool) (server : string → string → Response)
    (zoneId : Z) (cards : list Z) :
  List.filter (λ z, negb (z =? zoneId))
    (deleteZone confirmed server zoneId cards).1
  = List.filter (λ z, negb (z =? zoneId)) cards
  ∧ (confirmed = false →
     deleteZone confirmed server zoneId cards = (cards, []))
  ∧ ((deleteZone confirmed server zoneId cards).1 = cards
     ∨ (confirmed = true
        ∧ ok (server "DELETE"
                ("/admin/api/zones/" +:+ string_of_Z zoneId)) = true
        ∧ S (length (deleteZone confirmed server zoneId cards).1)
          = length cards)).
Proof.
  assert (∀ l, List.filter (λ z, negb (z =? zoneId))
                 (remove_first (λ z, z =? zoneId) l)
               = List.filter (λ z, negb (z =? zoneId)) l) as Hkeep.
  { induction l as [|c l IH]; simpl; [done|].
    destruct (c =? zoneId) eqn:E; simpl; [done|]. by rewrite E, IH. }
  assert (∀ l, remove_first (λ z, z =? zoneId) l = l
               ∨ S (length (remove_first (λ z, z =? zoneId) l))
                 = length l) as Hlen.
  { induction l as [|c l IH]; simpl; [by left|].
    destruct (c =? zoneId); simpl; [by right|].
    destruct IH as [->|IH]; [by left|right]. by rewrite IH. }
  unfold deleteZone. destruct confirmed; simpl.
  - destruct (ok (server "DELETE" _)) eqn:E; simpl.
    + split_and!; [apply Hkeep|done|].
      destruct (Hlen cards) as [->|H]; [by left|right]. by split_and!.
    + split_and!; [done|done|by left].
  - split_and!; [done|done|by left].
Qed.

(** ** The total value, in doubles *)

Section TotalsFacts.

Variable parseInt : string → float.
Variable numberToString : float → string.

Lemma totals_find_row_id (id : Z) (l : list Totals.Row) (r : Totals.Row) :
  Totals.find_row id l = Some r → Totals.row_id r = id.
Proof.
  unfold Totals.find_row. intros H. apply find_some in H as [_ H].
  by apply Z.eqb_eq.
Qed.

Lemma totals_omap_ids (f : Z → option Totals.Row) (s : IdSet)
    (r : Totals.Row) :
  (∀ id r, f id = Some r → Totals.row_id r = id) →
  r ∈ omap f s → Totals.row_id r ∈ s.
Proof.
  intros Hf Hr. apply list_elem_of_omap in Hr as (id & Hid & Hr).
  by rewrite (Hf _ _ Hr).
Qed.

Lemma totals_remove_omap (f : Z → option Totals.Row) (s : IdSet) (id : Z) :
  (∀ id r, f id = Some r → Totals.row_id r = id) →
  NoDup s →
  remove_first (Totals.has_row_id id) (omap f s) = omap f (set_delete id s).
Proof.
  intros Hf. induction 1 as [|a s Ha Hs IH]; [done|].
  unfold set_delete. cbn [omap list_omap List.filter].
  fold (omap f s). fold (set_delete id s).
  destruct (a =? id) eqn:E.
  - apply Z.eqb_eq in E. subst a. simpl negb. cbv iota.
    rewrite (set_delete_absent id s Ha).
    destruct (f id) as [r|] eqn:F; simpl.
    + unfold Totals.has_row_id. by rewrite (Hf _ _ F), Z.eqb_refl.
    + apply remove_first_none, Forall_forall. intros r Hr.
      apply Z.eqb_neq. intros Heq.
      apply (totals_omap_ids f s r Hf) in Hr. rewrite Heq in Hr. done.
  - simpl negb. cbv iota. cbn [omap list_omap]. fold (omap f s).
    destruct (f a) as [r|] eqn:F; simpl; [|done].
    unfold Totals.has_row_id at 1. rewrite (Hf _ _ F), E. by rewrite IH.
Qed.

Lemma totals_updateSelectedStats_Inv (d : Totals.Dialog) :
  NoDup (Totals.selectedSet d) →
  Totals.selectedFishList d
  = omap (λ i, Totals.find_row i (Totals.totalFishList d))
      (Totals.selectedSet d) →
  Totals.Inv parseInt (Totals.updateSelectedStats parseInt d).
Proof. intros H1 H2. by split_and!. Qed.

Lemma totals_add_internal (id : Z) (d : Totals.Dialog) :
  NoDup (Totals.selectedSet d) →
  Totals.selectedFishList d
  = omap (λ i, Totals.find_row i (Totals.totalFishList d))
      (Totals.selectedSet d) →
  NoDup (Totals.selectedSet (Totals._addFishToSelected_internal id d))
  ∧ Totals.selectedFishList (Totals._addFishToSelected_internal id d)
    = omap (λ i, Totals.find_row i
                    (Totals.totalFishList
                       (Totals._addFishToSelected_internal id d)))
        (Totals.selectedSet (Totals._addFishToSelected_internal id d))
  ∧ Totals.totalFishList (Totals._addFishToSelected_internal id d)
    = Totals.totalFishList d.
Proof.
  intros H1 H2. unfold Totals._addFishToSelected_internal.
  destruct (has (Totals.selectedSet d) id) eqn:E.
  { split; [exact H1|]. split; [exact H2|reflexivity]. }
  pose proof (set_add_NoDup id _ H1) as Hnd.
  unfold set_add in *. rewrite E in *.
  destruct (Totals.find_row id (Totals.totalFishList d)) as [r|] eqn:F;
    simpl; (split; [exact Hnd|]; split; [|reflexivity]).
  - rewrite omap_app, <- H2. simpl. rewrite F. by destruct r.
  - rewrite omap_app, <- H2. simpl. rewrite F. by rewrite app_nil_r.
Qed.

Lemma totals_add_internal_fold (ids : list Z) (d : Totals.Dialog) :
  NoDup (Totals.selectedSet d) →
  Totals.selectedFishList d
  = omap (λ i, Totals.find_row i (Totals.totalFishList d))
      (Totals.selectedSet d) →
  let d' := fold_left (λ acc id, Totals._addFishToSelected_internal id acc)
              ids d in
  NoDup (Totals.selectedSet d')
  ∧ Totals.selectedFishList d'
    = omap (λ i, Totals.find_row i (Totals.totalFishList d'))
        (Totals.selectedSet d')
  ∧ Totals.totalFishList d' = Totals.totalFishList d.
Proof.
  revert d. induction ids as [|id ids IH]; intros d H1 H2; simpl; [done|].
  destruct (totals_add_internal id d H1 H2) as (Ha & Hb & Hc).
  destruct (IH _ Ha Hb) as (Hd & He & Hf). split_and!; [done|done|].
  by rewrite Hf.
Qed.

Lemma totals_add_Inv (id : Z) (d : Totals.Dialog) :
  Totals.Inv parseInt d →
  Totals.Inv parseInt (Totals.addFishToSelected parseInt id d)
  ∧ Totals.totalFishList (Totals.addFishToSelected parseInt id d)
    = Totals.totalFishList d.
Proof.
  intros (H1 & H2 & _).
  destruct (totals_add_internal id d H1 H2) as (Ha & Hb & Hc).
  split; [|done]. by apply totals_updateSelectedStats_Inv.
Qed.

Lemma totals_remove_Inv (id : Z) (d : Totals.Dialog) :
  Totals.Inv parseInt d →
  Totals.Inv parseInt (Totals.removeFishFromSelected parseInt id d)
  ∧ Totals.totalFishList (Totals.removeFishFromSelected parseInt id d)
    = Totals.totalFishList d.
Proof.
  intros H. pose proof H as (H1 & H2 & _).
  unfold Totals.removeFishFromSelected.
  destruct (has (Totals.selectedSet d) id); simpl; [|done].
  split; [|done]. apply totals_updateSelectedStats_Inv; simpl.
  - by apply NoDup_filter_bool.
  - rewrite H2. apply totals_remove_omap; [|done].
    intros i r. apply totals_find_row_id.
Qed.

Lemma totals_remove_fold_Inv (ids : list Z) (d : Totals.Dialog) :
  Totals.Inv parseInt d →
  Totals.Inv parseInt
    (fold_left (λ acc id, Totals.removeFishFromSelected parseInt id acc)
       ids d)
  ∧ Totals.totalFishList
      (fold_left (λ acc id, Totals.removeFishFromSelected parseInt id acc)
         ids d)
    = Totals.totalFishList d.
Proof.
  revert d. induction ids as [|id ids IH]; intros d H; simpl; [done|].
  destruct (totals_remove_Inv id d H) as [Ha Hb].
  destruct (IH _ Ha) as [Hc Hd]. split; [done|]. by rewrite Hd.
Qed.

Lemma totals_initialize_Inv (ids : list Z) (d : Totals.Dialog) :
  Totals.Inv parseInt (Totals.initializeSelectedFish parseInt ids d)
  ∧ Totals.totalFishList (Totals.initializeSelectedFish parseInt ids d)
    = Totals.totalFishList d.
Proof.
  unfold Totals.initializeSelectedFish.
  destruct (totals_add_internal_fold ids
              (Totals.mkDialog [] (Totals.totalFishList d) []
                 (Totals.totalValue d)))
    as (Ha & Hb & Hc); [constructor|done|].
  split; [|done]. by apply totals_updateSelectedStats_Inv.
Qed.

Lemma totals_step_Inv (d : Totals.Dialog) (o : Totals.Op) :
  Totals.Inv parseInt d →
  Totals.Inv parseInt (Totals.step parseInt d o)
  ∧ Totals.totalFishList (Totals.step parseInt d o) = Totals.totalFishList d.
Proof.
  intros H. destruct o; simpl.
  - by apply totals_add_Inv.
  - by apply totals_remove_Inv.
  - by apply totals_remove_fold_Inv.
  - apply totals_initialize_Inv.
Qed.

Lemma totals_run_Inv (os : list Totals.Op) (d : Totals.Dialog) :
  Totals.Inv parseInt d →
  Totals.Inv parseInt (Totals.run parseInt d os)
  ∧ Totals.totalFishList (Totals.run parseInt d os) = Totals.totalFishList d.
Proof.
  unfold Totals.run. revert d.
  induction os as [|o os IH]; intros d H; simpl; [done|].
  destruct (totals_step_Inv d o H) as [Ha Hb].
  destruct (IH _ Ha) as [Hc Hd]. split; [done|]. by rewrite Hd.
Qed.

Lemma totals_renderForm_listed (allFishData : list Totals.Fish) :
  Totals.renderForm numberToString allFishData
  = map (Totals.candidate_row numberToString) (Totals.listed allFishData).
Proof.
  unfold Totals.renderForm, Totals.listed.
  induction rarities as [|r rs IH]; simpl; [done|].
  rewrite map_app, IH. f_equal.
  destruct (Totals.fishByRarity allFishData r); simpl; done.
Qed.

Lemma totals_find_candidate (id : Z) (l : list Totals.Fish) :
  Totals.find_row id (map (Totals.candidate_row numberToString) l)
  = option_map (Totals.candidate_row numberToString)
      (List.find (λ f, Totals.fish_id f =? id) l).
Proof.
  unfold Totals.find_row. induction l as [|f l IH]; simpl; [done|].
  unfold Totals.has_row_id at 1. simpl.
  by destruct (Totals.fish_id f =? id).
Qed.

Lemma totals_omap_candidates (l : list Totals.Fish) (s : IdSet) :
  omap (λ i, Totals.find_row i
                (map (Totals.candidate_row numberToString) l)) s
  = map (Totals.candidate_row numberToString)
      (omap (λ id, List.find (λ f, Totals.fish_id f =? id) l) s).
Proof.
  induction s as [|id s IH]; [done|].
  cbn [omap list_omap]. rewrite totals_find_candidate.
  fold (omap (λ i, Totals.find_row i
                      (map (Totals.candidate_row numberToString) l)) s).
  fold (omap (λ id, List.find (λ f, Totals.fish_id f =? id) l) s).
  rewrite IH. by destruct (List.find _ l).
Qed.

Lemma totals_fold_candidates (l : list Totals.Fish) (a : float) :
  fold_left
    (λ totalValue item,
       (totalValue + parseInt (Totals.data_value item))%float)
    (map (Totals.candidate_row numberToString) l) a
  = fold_left
      (λ totalValue f,
         (totalValue + Totals.read_back parseInt numberToString f)%float)
      l a.
Proof.
  revert a. induction l as [|f l IH]; intros a; simpl; [done|].
  by rewrite IH.
Qed.

Lemma totals_Inv_computed (allFishData : list Totals.Fish)
    (d : Totals.Dialog) :
  Totals.totalFishList d = Totals.renderForm numberToString allFishData →
  Totals.Inv parseInt d →
  Totals.total_as_computed parseInt numberToString allFishData d.
Proof.
  intros Hrows (H1 & H2 & H3).
  rewrite Hrows, totals_renderForm_listed, totals_omap_candidates in H2.
  unfold Totals.total_as_computed, Totals.listed_selected, Totals.fish_of.
  split_and!; [done|done|].
  by rewrite H3, H2, totals_fold_candidates.
Qed.

Lemma totals_opened_Inv (stale : IdSet) (allFishData : list Totals.Fish)
    (ids : list Z) (os : list Totals.Op) :
  Totals.Inv parseInt
    (Totals.opened parseInt numberToString stale allFishData ids os)
  ∧ Totals.totalFishList
      (Totals.opened parseInt numberToString stale allFishData ids os)
    = Totals.renderForm numberToString allFishData.
Proof.
  unfold Totals.opened.
  destruct (totals_initialize_Inv ids
              (Totals.shown numberToString stale allFishData)) as [Ha Hb].
  destruct (totals_run_Inv os _ Ha) as [Hc Hd].
  split; [done|]. by rewrite Hd, Hb.
Qed.

End TotalsFacts.

(** C6, as the code has it: after an add and after a remove, on a dialog
    that has been initialised (whatever set the previous session had
    left) and has gone through any selection operations since, the
    displayed total is the sum of the [data-value] attributes of the
    rendered items, each read with [parseInt] and added as a double in
    list order from 0; the rendered items are the rows of the selected
    ids that have a candidate, in selection order; and so the total is
    the sum, over those ids, of the base value of the listed fish as
    [parseInt] reads it back from its text. A selected id without a
    candidate adds nothing. *)
Theorem total_is_double_sum_of_listed_values
    (parseInt : string → float) (numberToString : float → string)
    (stale : IdSet) (allFishData : list Totals.Fish) (ids : list Z)
    (os : list Totals.Op) (id : Z) :
  Totals.total_as_computed parseInt numberToString allFishData
    (Totals.addFishToSelected parseInt id
       (Totals.opened parseInt numberToString stale allFishData ids os))
  ∧ Totals.total_as_computed parseInt numberToString allFishData
      (Totals.removeFishFromSelected parseInt id
         (Totals.opened parseInt numberToString stale allFishData ids os)).
Proof.
  destruct (totals_opened_Inv parseInt numberToString stale allFishData
              ids os) as [Hinv Hrows].
  destruct (totals_add_Inv parseInt id _ Hinv) as [Ha Har].
  destruct (totals_remove_Inv parseInt id _ Hinv) as [Hr Hrr].
  split; apply totals_Inv_computed; try done.
  - by rewrite Har.
  - by rewrite Hrr.
Qed.

(** C6 fails as worded, whatever [parseInt] and the text of a number
    are: a zone stored with the kraken, a fish of rarity 11 that the
    candidate list does not show, and the carp opens with both ids
    selected and the carp alone rendered; once the carp is removed the
    total is 0, and the base value of the one selected id is 500. *)
Lemma total_misses_selected_fish_without_row :
  ¬ ∃ (parseInt : string → float) (numberToString : float → string),
      Totals.total_as_specified parseInt
        [Totals.mkFish 1 1 10; Totals.mkFish 7 11 500]
        (Totals.removeFishFromSelected parseInt 1
           (Totals.opened parseInt numberToString []
              [Totals.mkFish 1 1 10; Totals.mkFish 7 11 500] [7; 1] [])).
Proof.
  intros (parseInt & numberToString & _ & H).
  apply (f_equal (λ o, match o with
                       | Some x => PrimFloat.ltb x 1
                       | None => false
                       end)) in H.
  vm_compute in H. discriminate.
Qed.

(** The total of two base values past the exact range of doubles, of a
    base value whose text is in exponent form, and of one with a
    fraction. *)
Example total_in_doubles :
  Totals.totalValue
    (Totals.opened parseInt_double_demo numberToString_demo []
       [Totals.mkFish 1 1 9007199254740991; Totals.mkFish 2 1 2] [1; 2] [])
  = 9007199254740992%float
  ∧ Totals.totalValue
      (Totals.opened parseInt_double_demo numberToString_demo []
         [Totals.mkFish 1 1 1e21; Totals.mkFish 2 3 10.5] [1; 2] [])
    = 11%float.
Proof. split; reflexivity. Qed.

(** ** A dialog from its initialisation on *)

Lemma init_run_Inv (ids : list Z) (m0 : Modal) (es : list Event) :
  Inv (run (initializeSelectedFish ids m0) es).
Proof. apply run_Inv, initializeSelectedFish_Inv. Qed.

Lemma renderForm_reset (allFishData : list Fish) :
  reset_lists (renderForm allFishData) = renderForm allFishData.
Proof.
  unfold reset_lists, renderForm.
  cbn [totalFishList rarityHeaders fishSearch rarityFilter totalFishCount
       selectedCount totalValue specific_fish_ids_input]. f_equal.
  - generalize (List.filter
                  (λ r, (0 <? length (fishByRarity allFishData r))%nat)
                  rarities) as rs.
    induction rs as [|r rs IH]; simpl; [done|].
    rewrite map_app, IH. f_equal. rewrite map_map. by apply map_ext.
  - rewrite map_map. by apply map_ext.
Qed.

(** A first rendering is the initialisation with no ids: the states
    reached from [fresh] are among those reached from an
    initialisation. *)
Lemma fresh_is_an_initialisation (allFishData : list Fish) :
  fresh allFishData
  = initializeSelectedFish [] (mkModal [] (renderForm allFishData)).
Proof.
  unfold fresh, setupFishSelection, initializeSelectedFish.
  cbn [fold_left dom]. rewrite renderForm_reset.
  reflexivity.
Qed.

(** X3. From the initialisation of a dialog on ([shown.bs.modal]),
    whatever state the dialog was in before, and through any sequence of
    its events, the selected list renders the ids of the set that have a
    candidate, in the order they were selected; each node carries the
    id, rarity, value and name of its candidate and is shown. A first
    rendering is such an initialisation. *)
Theorem rendered_nodes_follow_selection_order
    (ids : list Z) (m0 : Modal) (es : list Event) :
  map fishId
    (selectedFishList (dom (run (initializeSelectedFish ids m0) es)))
  = List.filter
      (in_catalog
         (totalFishList (dom (run (initializeSelectedFish ids m0) es))))
      (selectedSet (run (initializeSelectedFish ids m0) es))
  ∧ Forall
      (λ node,
         data_of
           (totalFishList (dom (run (initializeSelectedFish ids m0) es)))
           (fishId node)
         = Some (item_data node)
         ∧ display_none node = false)
      (selectedFishList (dom (run (initializeSelectedFish ids m0) es))).
Proof.
  pose proof (init_run_Inv ids m0 es) as H.
  split; [apply (inv_ids _ H)|].
  apply Forall_and. split; [apply (inv_data _ H)|apply (inv_shown _ H)].
Qed.

(** X4. From the initialisation of a dialog on, whatever state it was in
    before, and through any sequence of its events, the displayed count
    is the size of the set, the placeholder of the selected list is
    hidden exactly when the set is not empty, and the count is at least
    the number of rendered nodes (an id without a candidate is counted
    but not rendered). *)
Theorem count_is_size_of_set
    (ids : list Z) (m0 : Modal) (es : list Event) :
  selectedCount (dom (run (initializeSelectedFish ids m0) es))
  = length (selectedSet (run (initializeSelectedFish ids m0) es))
  ∧ (emptySelectedMessage_hidden
       (dom (run (initializeSelectedFish ids m0) es)) = true
     ↔ selectedSet (run (initializeSelectedFish ids m0) es) ≠ [])
  ∧ (length (selectedFishList (dom (run (initializeSelectedFish ids m0) es)))
     ≤ selectedCount (dom (run (initializeSelectedFish ids m0) es)))%nat.
Proof.
  pose proof (init_run_Inv ids m0 es) as H.
  destruct H as [_ Hids _ _ Hc _ He _].
  split_and!; [done| |].
  - rewrite He. destruct (selectedSet _); simpl; split; done.
  - rewrite Hc, <- (length_map fishId), Hids. apply filter_length_le.
Qed.

(** X11. The hidden input determines the selection: two dialogs, each
    initialised from whatever state and then taken through any events,
    whose hidden inputs hold the same text have the same selected ids in
    the same order. *)
Theorem hidden_input_determines_set
    (ids1 ids2 : list Z) (m1 m2 : Modal) (es1 es2 : list Event) :
  specific_fish_ids_input (dom (run (initializeSelectedFish ids1 m1) es1))
  = specific_fish_ids_input (dom (run (initializeSelectedFish ids2 m2) es2)) →
  selectedSet (run (initializeSelectedFish ids1 m1) es1)
  = selectedSet (run (initializeSelectedFish ids2 m2) es2).
Proof.
  intros Heq.
  pose proof (Inv_hidden_parses _ (init_run_Inv ids1 m1 es1)) as H1.
  pose proof (Inv_hidden_parses _ (init_run_Inv ids2 m2 es2)) as H2.
  rewrite Heq in H1. congruence.
Qed.

Lemma hidden_input_determines_set_witness :
  specific_fish_ids_input
    (dom (run (initializeSelectedFish [2; 1] (shown_again [3] pond))
            [RemoveFish 2]))
  = specific_fish_ids_input
      (dom (run (initializeSelectedFish [1; 1] (fresh [])) []))
  ∧ selectedSet
      (run (initializeSelectedFish [2; 1] (shown_again [3] pond))
         [RemoveFish 2])
    = selectedSet (run (initializeSelectedFish [1; 1] (fresh [])) []).
Proof.
  split; [reflexivity|].
  apply (hidden_input_determines_set [2; 1] [1; 1] (shown_again [3] pond)
           (fresh []) [RemoveFish 2] []).
  reflexivity.
Defined.

(** ** Selected fish are never offered *)

Lemma filtered_for_view (term : string) (m m' : Modal) :
  filter_view m = filter_view m' →
  filtered_for term m → filtered_for term m'.
Proof.
  unfold filter_view, filtered_for.
  intros Hv [Hall Hcount].
  injection Hv as Hs Hr Hn Hl. rewrite <- Hs, <- Hr, <- Hn.
  clear Hs Hr Hn. rewrite Hcount. clear Hcount.
  revert Hl Hall.
  generalize (totalFishList (dom m')) as l'.
  induction (totalFishList (dom m)) as [|x l IH]; intros [|y l'] Hl Hall;
    try discriminate; [by split|].
  simpl in Hl. injection Hl as Hid Hra Hva Hna Hd Hl.
  apply Forall_cons in Hall as [Hx Hall].
  destruct (IH l' Hl Hall) as [IH1 IH2].
  assert (is_shown x = is_shown y) as Hsh by (unfold is_shown; by rewrite Hd).
  split.
  - constructor; [|done]. rewrite <- Hsh, Hx.
    unfold isVisible. by rewrite Hid, Hra, Hna.
  - simpl. rewrite Hsh. destruct (is_shown y); simpl; by rewrite IH2.
Qed.

Lemma filterFishOptions_filtered (m : Modal) :
  filtered_for (fishSearch (dom m)) (filterFishOptions m).
Proof.
  unfold filtered_for, filterFishOptions. simpl. split.
  - apply List.Forall_forall. intros it' [it [<- _]]%in_map_iff.
    unfold is_shown. simpl. by rewrite negb_involutive.
  - apply filter_display_count.
Qed.

Lemma filter_view_toggle (i : nat) (l : list FishItem) :
  map (λ it, (item_data it, display_none it)) (toggle_at i l)
  = map (λ it, (item_data it, display_none it)) l.
Proof.
  unfold toggle_at. destruct (l !! i) as [it|] eqn:E; [|done].
  revert i E. induction l as [|x l IH]; intros [|i] E; simpl in *;
    try discriminate.
  - injection E as ->. done.
  - f_equal. by apply IH.
Qed.

Lemma filtered_fold (f : Z → Modal → Modal) (ids : list Z) (m : Modal) :
  (∀ id m, (∃ t, filtered_for t m) → ∃ t, filtered_for t (f id m)) →
  (∃ t, filtered_for t m) →
  ∃ t, filtered_for t (fold_left (λ acc id, f id acc) ids m).
Proof.
  intros Hf. revert m. induction ids as [|id ids IH]; intros m H; simpl;
    [done|]. by apply IH, Hf.
Qed.

Lemma filtered_add (id : Z) (m : Modal) :
  ∃ t, filtered_for t (addFishToSelected id m).
Proof. eexists. apply filterFishOptions_filtered. Qed.

Lemma filtered_remove (id : Z) (m : Modal) :
  (∃ t, filtered_for t m) → ∃ t, filtered_for t (removeFishFromSelected id m).
Proof.
  intros H. unfold removeFishFromSelected.
  destruct (has (selectedSet m) id); simpl; [|done].
  eexists. apply filterFishOptions_filtered.
Qed.

Lemma filtered_step (m : Modal) (e : Event) :
  (∃ t, filtered_for t m) → ∃ t, filtered_for t (step m e).
Proof.
  intros H. destruct e; simpl.
  - apply filtered_add.
  - by apply filtered_remove.
  - by apply filtered_fold, H; apply filtered_remove.
  - eexists. apply filterFishOptions_filtered.
  - apply filtered_fold, H. intros. apply filtered_add.
  - by apply filtered_fold, H; apply filtered_remove.
  - eexists. apply filterFishOptions_filtered.
  - eexists. apply filterFishOptions_filtered.
  - destruct H as [t H]. exists t.
    unfold toggleFishSelection_total.
    destruct (totalFishList (dom m) !! i); [|done].
    apply (filtered_for_view t m); [|done].
    unfold filter_view. simpl. by rewrite filter_view_toggle.
  - destruct H as [t H]. exists t.
    unfold toggleFishSelection_selected.
    destruct (selectedFishList (dom m) !! i); [|done].
    by apply (filtered_for_view t m).
  - destruct H as [t H]. exists t.
    apply (filtered_for_view t m); [|done].
    unfold filter_view. simpl. by rewrite filter_view_toggle.
  - destruct H as [t H]. exists t. by apply (filtered_for_view t m).
  - unfold handleFishDblClick.
    destruct (totalFishList (dom m) !! i); [|done]. apply filtered_add.
  - unfold selected_dblclick.
    destruct (selectedFishList (dom m) !! i); [|done].
    by apply filtered_remove.
  - destruct H as [t H]. exists t.
    unfold rarity_select_all_change.
    destruct (find (is_header r) (rarityHeaders (dom m))); [|done].
    apply (filtered_for_view t m); [|done].
    unfold filter_view. simpl. f_equal.
    rewrite map_map. apply map_ext. intros it.
    by destruct (of_rarity r it && is_shown it).
Qed.

Lemma filtered_gestures (gs : list Gesture) (m : Modal) :
  (∃ t, filtered_for t m) →
  ∃ t, filtered_for t (fold_left gesture_step gs m).
Proof.
  revert m. induction gs as [|g gs IH]; intros m H; simpl; [done|].
  apply IH. destruct g as [e|s]; simpl.
  - by apply filtered_step.
  - destruct H as [t H]. exists t. by apply (filtered_for_view t m).
Qed.

(** X5. No fish is at once selected and offered: from the
    initialisation of a dialog on, whatever state it was in before,
    through any sequence of its events and of texts pasted into the
    search box without a key (which run no filter), every shown
    candidate is unselected and of the chosen rarity when one is chosen,
    and the candidate count is the number of shown candidates. *)
Theorem selected_fish_are_never_offered
    (ids : list Z) (m0 : Modal) (gs : list Gesture) :
  Forall
    (λ it,
       is_shown it = true →
       has (selectedSet
              (fold_left gesture_step gs (initializeSelectedFish ids m0)))
         (fishId it) = false
       ∧ (string_of_Z (rarity it)
          = rarityFilter
              (dom (fold_left gesture_step gs
                      (initializeSelectedFish ids m0)))
          ∨ rarityFilter
              (dom (fold_left gesture_step gs
                      (initializeSelectedFish ids m0))) = ""))
    (totalFishList
       (dom (fold_left gesture_step gs (initializeSelectedFish ids m0))))
  ∧ totalFishCount
      (dom (fold_left gesture_step gs (initializeSelectedFish ids m0)))
    = length
        (List.filter is_shown
           (totalFishList
              (dom (fold_left gesture_step gs
                      (initializeSelectedFish ids m0))))).
Proof.
  destruct (filtered_gestures gs (initializeSelectedFish ids m0))
    as [t [Hall Hcount]].
  { eexists. unfold initializeSelectedFish.
    apply filterFishOptions_filtered. }
  split; [|done].
  eapply Forall_impl; [apply Hall|].
  intros it Hit Hs. simpl in Hit. rewrite Hs in Hit. symmetry in Hit.
  apply isVisible_spec in Hit as (_ & Hr & Hnot).
  split; [by apply has_false|done].
Qed.

(** After a paste the list is still what the last filter left: the box
    reads [koi] and all three candidates are offered. *)
Example pasted_text_is_not_filtered :
  fishSearch
    (dom (fold_left gesture_step [PasteSearch "koi"]
            (initializeSelectedFish [] (fresh pond)))) = "koi"
  ∧ map is_shown
      (totalFishList
         (dom (fold_left gesture_step [PasteSearch "koi"]
                 (initializeSelectedFish [] (fresh pond)))))
    = [true; true; true].
Proof. split; reflexivity. Qed.

(** ** The live feedback of the rarity inputs *)

Lemma rarity_input_sum_is_rarity_sum (parseFloat : string → float)
    (form : ZoneForm) :
  rarity_input_sum parseFloat form = rarity_sum parseFloat form.
Proof. reflexivity. Qed.

Lemma time_step_rarity_inputs (form : ZoneForm) (e : TimeEdit) :
  rarity_inputs (time_step form e) = rarity_inputs form.
Proof.
  destruct e; simpl; unfold applyTimeState; simpl;
    repeat (match goal with |- context [if ?b then _ else _] =>
                              destruct b end); reflexivity.
Qed.

Lemma with_text_rarity_inputs (field : TextField) (value : string)
    (form : ZoneForm) :
  rarity_inputs (with_text field value form) = rarity_inputs form.
Proof. reflexivity. Qed.

Lemma rarity_input_sum_ext (parseFloat : string → float)
    (form form' : ZoneForm) :
  rarity_inputs form = rarity_inputs form' →
  rarity_input_sum parseFloat form = rarity_input_sum parseFloat form'.
Proof. unfold rarity_input_sum. by intros ->. Qed.

Lemma panel_step_current (parseFloat : string → float) (p : RarityPanel)
    (e : FormInput) :
  feedback_current parseFloat p →
  feedback_current parseFloat (panel_step parseFloat p e).
Proof.
  unfold feedback_current. intros H. destruct e as [f v|f v|t]; simpl.
  - reflexivity.
  - rewrite H. reflexivity.
  - rewrite H. f_equal. apply rarity_input_sum_ext.
    symmetry. apply time_step_rarity_inputs.
Qed.

Lemma panel_run_current (parseFloat : string → float) (es : list FormInput)
    (p : RarityPanel) :
  feedback_current parseFloat p →
  feedback_current parseFloat (fold_left (panel_step parseFloat) es p).
Proof.
  revert p. induction es as [|e es IH]; intros p H; simpl; [done|].
  by apply IH, panel_step_current.
Qed.

Lemma panel_untouched (parseFloat : string → float) (es : list FormInput)
    (p : RarityPanel) :
  feedback_text_danger
    (fold_left (panel_step parseFloat)
       (List.filter (λ e, negb (is_rarity_input e)) es) p)
  = feedback_text_danger p.
Proof.
  revert p. induction es as [|e es IH]; intros p; simpl; [done|].
  destruct e; simpl; [apply IH|rewrite IH; reflexivity..].
Qed.

Lemma submit_refused_iff (parseFloat : string → float)
    (parseInt : string → option Z)
    (server : string → string → Payload → Response)
    (zoneId : option string) (form : ZoneForm) (m : Modal) :
  off_by_more_than_1e_4 (rarity_sum parseFloat form) = true
  ↔ (submit parseFloat parseInt server zoneId form m).2 = [].
Proof.
  unfold submit.
  destruct (off_by_more_than_1e_4 (rarity_sum parseFloat form)).
  - done.
  - split; [done|]. by destruct (ok _).
Qed.

(** X20. The feedback line under the rarity inputs is written by the
    [input] listener only. Once the user has typed into one of the six
    rarity inputs, and through whatever is typed into the form after
    that, the line carries [text-danger] exactly when submitting the
    form as it stands is refused without a request. Until a rarity input
    is typed into, the line is as rendered, without the class, whatever
    the six values add up to. *)
Theorem feedback_follows_rarity_inputs
    (parseFloat : string → float) (parseInt : string → option Z)
    (server : string → string → Payload → Response)
    (zoneId : option string) (form : ZoneForm) (m : Modal)
    (before after others : list FormInput)
    (field : RarityField) (value : string) :
  (feedback_text_danger
     (typed parseFloat form (before ++ RarityInput field value :: after))
   = true
   ↔ (submit parseFloat parseInt server zoneId
        (panel_form
           (typed parseFloat form
              (before ++ RarityInput field value :: after)))
        m).2 = [])
  ∧ feedback_text_danger
      (typed parseFloat form
         (List.filter (λ e, negb (is_rarity_input e)) others))
    = false.
Proof.
  split.
  - rewrite <- submit_refused_iff, <- rarity_input_sum_is_rarity_sum.
    unfold typed. rewrite fold_left_app. cbn [fold_left].
    rewrite (panel_run_current parseFloat after); [done|].
    reflexivity.
  - unfold typed. apply panel_untouched.
Qed.

(** A form rendered with six zeros is refused on submission and its
    feedback line is not marked. *)
Example rendered_feedback_is_unmarked :
  feedback_text_danger
    (rendered_panel
       (mkZoneForm "" "" "" "" "" true false "" "" "0" "0" "0" "0" "0" "0"
          false "" None)) = false
  ∧ (submit (λ _, 0%float) (λ _, None)
       (λ _ _ _, mkResponse true "" []) None
       (mkZoneForm "" "" "" "" "" true false "" "" "0" "0" "0" "0" "0" "0"
          false "" None)
       (fresh [])).2 = [].
Proof. split; reflexivity. Qed.

(** ** The submission and the network *)

(** On a server that answers with a readable body the listener is
    [submit]. *)
Lemma submit_reply_answering (parseFloat : string → float)
    (parseInt : string → option Z)
    (server : string → string → Payload → Response)
    (zoneId : option string) (form : ZoneForm) (m : Modal) :
  submit_reply parseFloat parseInt (answering server) zoneId form m
  = submit parseFloat parseInt server zoneId form m.
Proof.
  unfold submit_reply, submit, answering.
  destruct (off_by_more_than_1e_4 (rarity_sum parseFloat form)); [done|].
  cbv zeta.
  change (match zoneId with Some z => truthy z | None => false end)
    with (submit_edit zoneId).
  fold (submit_url zoneId). fold (submit_method zoneId).
  fold (submit_payload parseFloat parseInt form m).
  by destruct (ok _).
Qed.

(** X21. A submission never changes the selection nor what the user
    typed. With a rarity sum that is off it sends nothing and shows the
    rarity error. Otherwise it sends one request, and then: the page is
    reloaded exactly when the answer is ok; the alert shows the message
    and the errors of the answer exactly when the answer is not ok and
    its body can be read; when [fetch] rejects or the body cannot be
    read, the listener stops and the form is left as it was. *)
Theorem submit_effects_by_reply
    (parseFloat : string → float) (parseInt : string → option Z)
    (network : string → string → Payload → Reply)
    (zoneId : option string) (form : ZoneForm) (m : Modal) :
  (submit_reply parseFloat parseInt network zoneId form m).1.2 = m
  ∧ form_inputs (submit_reply parseFloat parseInt network zoneId form m).1.1
    = form_inputs form
  ∧ ((off_by_more_than_1e_4 (rarity_sum parseFloat form) = true
      ∧ (submit_reply parseFloat parseInt network zoneId form m).2 = []
      ∧ form_error_alert
          (submit_reply parseFloat parseInt network zoneId form m).1.1
        = Some (rarity_error, []))
     ∨ (off_by_more_than_1e_4 (rarity_sum parseFloat form) = false
        ∧ match network (submit_method zoneId) (submit_url zoneId)
                  (submit_payload parseFloat parseInt form m) with
          | ResponseOk =>
              (submit_reply parseFloat parseInt network zoneId form m).2
              = [Fetch (submit_method zoneId) (submit_url zoneId)
                   (submit_payload parseFloat parseInt form m);
                 Reload]
              ∧ (submit_reply parseFloat parseInt network zoneId form m).1.1
                = form
          | ResponseNotOk (Some (message, errors)) =>
              (submit_reply parseFloat parseInt network zoneId form m).2
              = [Fetch (submit_method zoneId) (submit_url zoneId)
                   (submit_payload parseFloat parseInt form m)]
              ∧ form_error_alert
                  (submit_reply parseFloat parseInt network zoneId form m).1.1
                = Some (message, errors)
          | FetchRejected | ResponseNotOk None =>
              (submit_reply parseFloat parseInt network zoneId form m).2
              = [Fetch (submit_method zoneId) (submit_url zoneId)
                   (submit_payload parseFloat parseInt form m)]
              ∧ (submit_reply parseFloat parseInt network zoneId form m).1.1
                = form
          end)).
Proof.
  unfold submit_reply.
  destruct (off_by_more_than_1e_4 (rarity_sum parseFloat form)).
  - split_and!; [done|done|]. left. by split_and!.
  - cbv zeta.
    destruct (network _ _ _) as [| |[[message errors]|]]; simpl;
      (split_and!; [done|done|]); right; by split_and!.
Qed.
